(** * Crypto Gem Finder: the filter / score / rank / narrate pipeline of
    [src/App.js], embedded over IEEE binary64 numbers.

    JavaScript numbers are binary64 floating-point numbers; they are
    modelled by Rocq's primitive [float], whose operations are the IEEE
    ones and are specified against [SpecFloat] by the Standard Library. *)

From Stdlib Require Import ZArith Floats Uint63 Lia Bool Ascii String DecimalString Sorted.
From stdpp Require Import base option list gmap strings.

Set Warnings "-inexact-float".
Local Open Scope string_scope.
Local Open Scope Z_scope.

(** ** JavaScript numbers *)

Module JsNumber.

Abbreviation number := PrimFloat.float.

Definition NaN : number := PrimFloat.nan.

(** [x < y] and [x > y] on numbers: false as soon as one side is NaN. *)
Definition lessThan (x y : number) : bool := PrimFloat.ltb x y.
Definition greaterThan (x y : number) : bool := PrimFloat.ltb y x.

Definition divide (x y : number) : number := PrimFloat.div x y.
Definition multiply (x y : number) : number := PrimFloat.mul x y.
Definition add (x y : number) : number := PrimFloat.add x y.
Definition subtract (x y : number) : number := PrimFloat.sub x y.

Definition isNaN (x : number) : bool := PrimFloat.is_nan x.
Definition is_zero (x : number) : bool := PrimFloat.is_zero x.

(** The number denoted by a small integer literal. *)
Definition of_Z (n : Z) : number := PrimFloat.of_uint63 (Uint63.of_Z n).

End JsNumber.

Import JsNumber.

(** ** JavaScript values held by the numeric properties of a record

    The records are decoded JSON. The record model of the specification
    gives these properties numbers; here a property holds a number, is
    [null], is missing ([undefined]), or holds a boolean. A string there
    is outside this model and no statement below covers it: [>] compares
    two strings as text, and a string has no [toFixed]. *)

Inductive JsValue : Type :=
  | Undefined
  | Null
  | Bool (b : bool)
  | Num (x : number).

(** ToNumber, applied by [/], [*], [-] and by [<], [>] on non-strings. *)
Definition ToNumber (v : JsValue) : number :=
  match v with
  | Undefined => NaN
  | Null => 0%float
  | Bool true => 1%float
  | Bool false => 0%float
  | Num x => x
  end.

(** ToBoolean, applied by [if], [&&] and [? :]. *)
Definition ToBoolean (v : JsValue) : bool :=
  match v with
  | Undefined => false
  | Null => false
  | Bool b => b
  | Num x => negb (is_zero x || isNaN x)
  end.

(** ** Records *)

Record Crypto : Type := {
  id : string;
  name : string;
  symbol : string;
  image : string;
  market_cap : JsValue;
  total_volume : JsValue;
  price_change_percentage_24h : JsValue;
  total_supply : JsValue;
  circulating_supply : JsValue
}.

Record Score : Type := {
  value : number;
  factors : list string
}.

(** [score.value += pts; score.factors.push(text)] *)
Definition bump (pts : number) (text : string) (score : Score) : Score :=
  {| value := add (value score) pts; factors := factors score ++ [text] |}.

(** ** The scorer: [analyzePotential]

    The five [if] statements of the function body, in source order; each
    takes the score object built so far and returns it updated. *)

Definition marketCapRule (crypto : Crypto) (score : Score) : Score :=
  let marketCapInMillions := divide (ToNumber (market_cap crypto)) 1000000%float in
  if lessThan marketCapInMillions 10%float then
    bump 4%float "Micro market cap with massive growth potential" score
  else if lessThan marketCapInMillions 50%float then
    bump 3%float "Very low market cap with high growth potential" score
  else score.

Definition volumeRule (crypto : Crypto) (score : Score) : Score :=
  let volumeToMarketCap :=
    divide (ToNumber (total_volume crypto)) (ToNumber (market_cap crypto)) in
  if greaterThan volumeToMarketCap 0.5%float then
    bump 4%float "Exceptional trading volume relative to market cap" score
  else if greaterThan volumeToMarketCap 0.3%float then
    bump 3%float "Very high trading volume relative to market cap" score
  else score.

Definition momentumRule (crypto : Crypto) (score : Score) : Score :=
  if greaterThan (ToNumber (price_change_percentage_24h crypto)) 15%float then
    bump 4%float "Strong positive price momentum (>15%)" score
  else if greaterThan (ToNumber (price_change_percentage_24h crypto)) 8%float then
    bump 2%float "Good positive price momentum (>8%)" score
  else score.

Definition supplyRule (crypto : Crypto) (score : Score) : Score :=
  if ToBoolean (total_supply crypto) && ToBoolean (circulating_supply crypto) then
    let supplyRatio :=
      divide (ToNumber (circulating_supply crypto)) (ToNumber (total_supply crypto)) in
    if lessThan supplyRatio 0.3%float then
      bump 3%float "Very large room for supply growth" score
    else if lessThan supplyRatio 0.5%float then
      bump 2%float "Significant room for supply growth" score
    else score
  else score.

Definition activityBonus (crypto : Crypto) (score : Score) : Score :=
  if greaterThan (ToNumber (total_volume crypto)) (ToNumber (market_cap crypto)) then
    bump 2%float "Extremely high trading activity" score
  else score.

Definition analyzePotential (crypto : Crypto) : Score :=
  let score := {| value := 0%float; factors := [] |} in
  let score := marketCapRule crypto score in
  let score := volumeRule crypto score in
  let score := momentumRule crypto score in
  let score := supplyRule crypto score in
  let score := activityBonus crypto score in
  score.

(** ** The candidate filter: the predicate passed to [data.filter] in
    [fetchCryptoData] *)

Definition isPotentialGem (crypto : Crypto) : bool :=
  let marketCapInMillions := divide (ToNumber (market_cap crypto)) 1000000%float in
  let volumeToMarketCap :=
    divide (ToNumber (total_volume crypto)) (ToNumber (market_cap crypto)) in
  lessThan marketCapInMillions 100%float &&
  greaterThan volumeToMarketCap 0.1%float &&
  greaterThan (ToNumber (market_cap crypto)) 0%float.

(** ** Number.prototype.toFixed *)

Module ToFixed.

Definition decimal (n : Z) : string :=
  NilZero.string_of_uint (N.to_uint (Z.to_N n)).

Fixpoint zeros (k : nat) : string :=
  match k with
  | O => ""
  | S k' => String "0" (zeros k')
  end.

(** The integer [n] for which [n / 10^f - m * 2^e] is closest to zero,
    the larger one when two are equally close. *)
Definition scaled (f : nat) (m : positive) (e : Z) : Z :=
  let num := Z.pos m * 10 ^ Z.of_nat f in
  if 0 <=? e then num * 2 ^ e
  else (2 * num + 2 ^ (- e)) / 2 ^ (- e + 1).

(** Digits of [n] with a point before the last [f] of them. *)
Definition fixed_notation (f : nat) (n : Z) : string :=
  let m := decimal n in
  match f with
  | O => m
  | _ =>
      let k := String.length m in
      let m := if (k <=? f)%nat then zeros (f + 1 - k) ++ m else m in
      let k := String.length m in
      substring 0 (k - f) m ++ "." ++ substring (k - f) f m
  end.

Definition at_least_1e21 (m : positive) (e : Z) : bool :=
  if 0 <=? e then 10 ^ 21 <=? Z.pos m * 2 ^ e
  else 10 ^ 21 * 2 ^ (- e) <=? Z.pos m.

(** *** Number::toString for integers from 1e21 up: the shortest digit
    string that reads back as the same number, the closest such. *)

Definition round_to_double (v : Z) : spec_float :=
  binary_normalize prec emax v 0 false.

Definition same_finite (a b : spec_float) : bool :=
  match a, b with
  | S754_finite s m e, S754_finite s' m' e' =>
      Bool.eqb s s' && (m =? m')%positive && (e =? e')
  | _, _ => false
  end.

(** With [k] significant digits: the digit value [s] and scale [p] with
    [s * p] reading back as [x], if there is one. *)
Definition candidate (M : Z) (x : spec_float) (nd k : nat) : option Z :=
  let p := 10 ^ Z.of_nat (nd - k) in
  let lo := M / p in
  let hi := lo + 1 in
  let ok s := same_finite (round_to_double (s * p)) x in
  match ok lo, ok hi with
  | true, true =>
      match (M - lo * p) ?= (hi * p - M) with
      | Lt => Some lo
      | Gt => Some hi
      | Eq => Some (if Z.even lo then lo else hi)
      end
  | true, false => Some lo
  | false, true => Some hi
  | false, false => None
  end.

Fixpoint shortest (M : Z) (x : spec_float) (nd k fuel : nat) : option (Z * nat) :=
  match fuel with
  | O => None
  | S fuel' =>
      match candidate M x nd k with
      | Some s => Some (s, k)
      | None => shortest M x nd (S k) fuel'
      end
  end.

Definition exponential_notation (m : positive) (e : Z) : string :=
  let M := Z.pos m * 2 ^ e in
  let nd := String.length (decimal M) in
  match shortest M (S754_finite false m e) nd 1 17 with
  | Some (s, k) =>
      (* a carry to 10^k is the single digit 1 one place higher *)
      let '(digits, n) :=
        if s =? 10 ^ Z.of_nat k then ("1", S nd) else (decimal s, nd) in
      let mantissa :=
        match digits with
        | String d "" => String d ""
        | String d rest => String d ("." ++ rest)
        | "" => ""
        end in
      mantissa ++ "e+" ++ decimal (Z.of_nat (n - 1))
  | None => decimal M
  end.

Definition toFixed (f : nat) (x : number) : string :=
  match Prim2SF x with
  | S754_nan => "NaN"
  | S754_infinity s => if s then "-Infinity" else "Infinity"
  | S754_zero _ => fixed_notation f 0
  | S754_finite s m e =>
      (if s then "-" else "") ++
      (if at_least_1e21 m e then exponential_notation m e
       else fixed_notation f (scaled f m e))
  end.

End ToFixed.

(** ** Completions: a value, or a thrown TypeError *)

Inductive Completion (A : Type) : Type :=
  | Normal (a : A)
  | TypeError (msg : string).
Arguments Normal {A} a.
Arguments TypeError {A} msg.

(** [e.toFixed(f)], for an expression [e] of value [v]: only numbers have
    the method. The message of the TypeError is the engine's; it is V8's
    here, which quotes the expression. *)
Definition call_toFixed (expression : string) (v : JsValue) (f : nat)
    : Completion string :=
  match v with
  | Num x => Normal (ToFixed.toFixed f x)
  | _ => TypeError (expression ++ ".toFixed is not a function")
  end.

(** ** The narrative generator: [generateAnalysis] *)

Definition generateAnalysis (crypto : Crypto) : Completion string :=
  let marketCapInMillions := divide (ToNumber (market_cap crypto)) 1000000%float in
  let volumeToMarketCap :=
    divide (ToNumber (total_volume crypto)) (ToNumber (market_cap crypto)) in
  let supplyRatio :=
    if ToBoolean (total_supply crypto) then
      Num (multiply (divide (ToNumber (circulating_supply crypto))
                    (ToNumber (total_supply crypto))) 100%float)
    else Null in
  let part1 :=
    name crypto ++ " shows promise with a market cap of only $" ++
    ToFixed.toFixed 2 marketCapInMillions ++ "M. " in
  let part2 :=
    if greaterThan volumeToMarketCap 0.3%float then
      "It has strong trading volume at " ++
      ToFixed.toFixed 1 (multiply volumeToMarketCap 100%float) ++ "% of its market cap. "
    else "" in
  match
    (if greaterThan (ToNumber (price_change_percentage_24h crypto)) 0%float then
       match call_toFixed "crypto.price_change_percentage_24h"
               (price_change_percentage_24h crypto) 1 with
       | Normal digits => Normal ("Price is up " ++ digits ++ "% in the last 24h. ")
       | TypeError msg => TypeError msg
       end
     else Normal "")
  with
  | TypeError msg => TypeError msg
  | Normal part3 =>
      match
        (if ToBoolean supplyRatio then
           match call_toFixed "supplyRatio" supplyRatio 1 with
           | Normal digits =>
               Normal ("Only " ++ digits ++ "% of total supply is in circulation. ")
           | TypeError msg => TypeError msg
           end
         else Normal "")
      with
      | TypeError msg => TypeError msg
      | Normal part4 => Normal (part1 ++ part2 ++ part3 ++ part4)
      end
  end.

(** ** Arrays live in a heap; array methods run in a state monad *)

Module JsHeap.

Abbreviation ref := positive.
Abbreviation heap := (gmap positive (list Crypto)).

Definition Js (A : Type) : Type := heap -> Completion (A * heap).

#[export] Instance js_ret : MRet Js := fun A a h => Normal (a, h).

#[export] Instance js_bind : MBind Js := fun A B k m h =>
  match m h with
  | Normal (a, h') => k a h'
  | TypeError msg => TypeError msg
  end.

Definition read (a : ref) : Js (list Crypto) :=
  fun h =>
    match h !! a with
    | Some l => Normal (l, h)
    | None => TypeError "not an array"
    end.

Definition alloc (l : list Crypto) : Js ref :=
  fun h => let a := fresh (dom h) in Normal (a, <[a := l]> h).

Definition write (a : ref) (l : list Crypto) : Js unit :=
  fun h => Normal (tt, <[a := l]> h).

End JsHeap.

Import JsHeap.

(** [[...data]]: a new array holding the elements of [data]. *)
Definition spread (data : ref) : Js ref :=
  l ← read data; alloc l.

(** [data.filter(p)]: a new array; [data] is only read. *)
Definition Array_filter (p : Crypto -> bool) (data : ref) : Js ref :=
  l ← read data; alloc (List.filter p l).

(** The array assigned to [potentialGems] in [fetchCryptoData]. *)
Definition potentialGems (data : ref) : Js ref :=
  Array_filter isPotentialGem data.

(** *** Array.prototype.sort

    ECMAScript fixes the result of [sort] when the comparator is
    consistent: the stable, sorted rearrangement. The algorithm is the
    engine's; it is modelled by stable insertion. When the comparator is
    not consistent (some key is NaN) the order is implementation-defined,
    and the order of this model need not be an engine's: the theorems on
    the order of the result assume comparable keys, and without them only
    that the result is a rearrangement of the input is used. *)

Section ArraySort.
Context {A : Type} (comparefn : A -> A -> number).

(** NaN from the comparator counts as +0. *)
Definition SortCompare (x y : A) : number :=
  let v := comparefn x y in
  if isNaN v then 0%float else v.

Fixpoint insert_sorted (x : A) (l : list A) : list A :=
  match l with
  | [] => [x]
  | y :: l' =>
      if greaterThan (SortCompare x y) 0%float then y :: insert_sorted x l'
      else x :: y :: l'
  end.

Definition sort_list (l : list A) : list A := foldr insert_sorted [] l.

End ArraySort.

(** [a.sort(comparefn)] sorts [a] in place and returns [a] itself. *)
Definition Array_sort (comparefn : Crypto -> Crypto -> number) (a : ref) : Js ref :=
  l ← read a; _ ← write a (sort_list comparefn l); mret a.

(** ** The ranker: [sortData] *)

Inductive NumericField : Type :=
  | MarketCap | TotalVolume | PriceChange24h | TotalSupply | CirculatingSupply.

(** [sortField]: ['potentialScore'] or the name of a numeric property. *)
Inductive SortField : Type :=
  | PotentialScore
  | Property (f : NumericField).

(** [sortDirection]: ['desc'] or anything else. *)
Inductive SortDirection : Type := Desc | Asc.

(** [a[sortField]] *)
Definition get (f : NumericField) (a : Crypto) : JsValue :=
  match f with
  | MarketCap => market_cap a
  | TotalVolume => total_volume a
  | PriceChange24h => price_change_percentage_24h a
  | TotalSupply => total_supply a
  | CirculatingSupply => circulating_supply a
  end.

Definition compareFn (sortField : SortField) (sortDirection : SortDirection)
    (a b : Crypto) : number :=
  match sortField with
  | PotentialScore =>
      let scoreA := value (analyzePotential a) in
      let scoreB := value (analyzePotential b) in
      match sortDirection with
      | Desc => subtract scoreB scoreA
      | Asc => subtract scoreA scoreB
      end
  | Property f =>
      let aValue := get f a in
      let bValue := get f b in
      match sortDirection with
      | Desc => subtract (ToNumber bValue) (ToNumber aValue)
      | Asc => subtract (ToNumber aValue) (ToNumber bValue)
      end
  end.

Definition sortData (sortField : SortField) (sortDirection : SortDirection)
    (data : ref) : Js ref :=
  copy ← spread data; Array_sort (compareFn sortField sortDirection) copy.

(** ** The rule table of the specification (section 4.2), as data *)

Module RuleTable.

Record Tier : Type := {
  tier_cond : Crypto -> bool;
  tier_points : Z;
  tier_text : string
}.

Record Group : Type := {
  group_applies : Crypto -> bool;
  group_tiers : list Tier
}.

Definition capInMillions (r : Crypto) : number :=
  divide (ToNumber (market_cap r)) 1000000%float.
Definition volumeCapRatio (r : Crypto) : number :=
  divide (ToNumber (total_volume r)) (ToNumber (market_cap r)).
Definition change24h (r : Crypto) : number :=
  ToNumber (price_change_percentage_24h r).
Definition supplyRatio (r : Crypto) : number :=
  divide (ToNumber (circulating_supply r)) (ToNumber (total_supply r)).

(** "only if both present", as the scorer tests it: both truthy. *)
Definition bothSupplied (r : Crypto) : bool :=
  ToBoolean (total_supply r) && ToBoolean (circulating_supply r).

Definition always (_ : Crypto) : bool := true.

Definition cap_group : Group :=
  {| group_applies := always;
     group_tiers :=
       [ {| tier_cond := fun r => lessThan (capInMillions r) 10%float; tier_points := 4;
            tier_text := "Micro market cap with massive growth potential" |};
         {| tier_cond := fun r => lessThan (capInMillions r) 50%float; tier_points := 3;
            tier_text := "Very low market cap with high growth potential" |} ] |}.

Definition ratio_group : Group :=
  {| group_applies := always;
     group_tiers :=
       [ {| tier_cond := fun r => greaterThan (volumeCapRatio r) 0.5%float; tier_points := 4;
            tier_text := "Exceptional trading volume relative to market cap" |};
         {| tier_cond := fun r => greaterThan (volumeCapRatio r) 0.3%float; tier_points := 3;
            tier_text := "Very high trading volume relative to market cap" |} ] |}.

Definition momentum_group : Group :=
  {| group_applies := always;
     group_tiers :=
       [ {| tier_cond := fun r => greaterThan (change24h r) 15%float; tier_points := 4;
            tier_text := "Strong positive price momentum (>15%)" |};
         {| tier_cond := fun r => greaterThan (change24h r) 8%float; tier_points := 2;
            tier_text := "Good positive price momentum (>8%)" |} ] |}.

Definition supply_group : Group :=
  {| group_applies := bothSupplied;
     group_tiers :=
       [ {| tier_cond := fun r => lessThan (supplyRatio r) 0.3%float; tier_points := 3;
            tier_text := "Very large room for supply growth" |};
         {| tier_cond := fun r => lessThan (supplyRatio r) 0.5%float; tier_points := 2;
            tier_text := "Significant room for supply growth" |} ] |}.

Definition bonus_group : Group :=
  {| group_applies := always;
     group_tiers :=
       [ {| tier_cond := fun r => greaterThan (ToNumber (total_volume r)) (ToNumber (market_cap r));
            tier_points := 2;
            tier_text := "Extremely high trading activity" |} ] |}.

Definition table : list Group :=
  [cap_group; ratio_group; momentum_group; supply_group; bonus_group].

(** First matching tier wins within a group. *)
Definition contribution (r : Crypto) (g : Group) : option Tier :=
  if group_applies g r then List.find (fun t => tier_cond t r) (group_tiers g)
  else None.

Definition triggered (r : Crypto) : list Tier := omap (contribution r) table.

Definition points (r : Crypto) : Z :=
  foldr Z.add 0 (tier_points <$> triggered r).

Definition texts (r : Crypto) : list string := tier_text <$> triggered r.

(** A group fires when it applies and one of its tiers matches. *)
Definition fires (r : Crypto) (g : Group) : bool :=
  group_applies g r && existsb (fun t => tier_cond t r) (group_tiers g).

(** The groups that fire as the scorer tests them: the supply group
    applies when both supply fields are truthy. *)
Definition fired_groups (r : Crypto) : nat := length (List.filter (fires r) table).

(** One group applied to the score built so far. *)
Definition apply (r : Crypto) (score : Score) (g : Group) : Score :=
  match contribution r g with
  | Some t => bump (of_Z (tier_points t)) (tier_text t) score
  | None => score
  end.

(** *** The supply group as the specification words it

    "Only if both present", with absent meaning null, undefined or a zero
    denominator. *)

Definition present (v : JsValue) : bool :=
  match v with
  | Undefined | Null => false
  | _ => true
  end.

Definition bothPresent (r : Crypto) : bool :=
  present (total_supply r) && present (circulating_supply r) &&
  negb (is_zero (ToNumber (total_supply r))).

Definition stated_supply_group : Group :=
  {| group_applies := bothPresent; group_tiers := group_tiers supply_group |}.

Definition stated_table : list Group :=
  [cap_group; ratio_group; momentum_group; stated_supply_group; bonus_group].

Definition stated_points (r : Crypto) : Z :=
  foldr Z.add 0 (tier_points <$> omap (contribution r) stated_table).

Definition stated_texts (r : Crypto) : list string :=
  tier_text <$> omap (contribution r) stated_table.

(** The triggered rule groups as the specification counts them: the
    supply group applies when both supply fields are present. *)
Definition stated_fired_groups (r : Crypto) : nat :=
  length (List.filter (fires r) stated_table).

(** The points a group contributes, 0 when it does not fire. *)
Definition group_points (r : Crypto) (g : Group) : Z :=
  from_option tier_points 0 (contribution r g).

(** Every tier of the group is worth between 0 and 4 points. *)
Definition small_group (g : Group) : Prop :=
  Forall (fun t => 0 <= tier_points t <= 4) (group_tiers g).

End RuleTable.

(** ** The narrative of the specification (section 4.4), as clauses *)

Module Narrative.

Definition clause1 (r : Crypto) : string :=
  name r ++ " shows promise with a market cap of only $" ++
  ToFixed.toFixed 2 (RuleTable.capInMillions r) ++ "M.".

Definition clause2 (r : Crypto) : string :=
  "It has strong trading volume at " ++
  ToFixed.toFixed 1 (multiply (RuleTable.volumeCapRatio r) 100%float) ++
  "% of its market cap.".

Definition clause3 (r : Crypto) : string :=
  "Price is up " ++ ToFixed.toFixed 1 (RuleTable.change24h r) ++
  "% in the last 24h.".

Definition clause4 (percent : number) : string :=
  "Only " ++ ToFixed.toFixed 1 percent ++ "% of total supply is in circulation.".

(** The circulating share in percent, when the narrator has one to show:
    [total_supply] truthy and the share neither zero nor NaN. *)
Definition supplyPercent (r : Crypto) : option number :=
  if ToBoolean (total_supply r) then
    let p := multiply (RuleTable.supplyRatio r) 100%float in
    if is_zero p || isNaN p then None else Some p
  else None.

Definition clauses (r : Crypto) : list string :=
  ([clause1 r] ++
   (if greaterThan (RuleTable.volumeCapRatio r) 0.3%float then [clause2 r] else []) ++
   (if greaterThan (RuleTable.change24h r) 0%float then [clause3 r] else []) ++
   (match supplyPercent r with Some p => [clause4 p] | None => [] end))%list.

(** Each clause is followed by a single space. *)
Definition sentence (cs : list string) : string :=
  foldr (fun c rest => c ++ " " ++ rest) "" cs.

End Narrative.

(** JavaScript's truthy values among those a property holds. *)
Definition truthy (v : JsValue) : Prop :=
  match v with
  | Undefined | Null => False
  | Bool b => b = true
  | Num x => PrimFloat.eqb x 0%float = false /\ isNaN x = false
  end.

(** The record with both supply fields missing. *)
Definition withoutSupply (r : Crypto) : Crypto :=
  {| id := id r; name := name r; symbol := symbol r; image := image r;
     market_cap := market_cap r; total_volume := total_volume r;
     price_change_percentage_24h := price_change_percentage_24h r;
     total_supply := Undefined; circulating_supply := Undefined |}.

(** *** Sample records *)

(** Scenario A of the specification. *)
Definition scenarioA : Crypto :=
  {| id := "a"; name := "A"; symbol := "a"; image := "";
     market_cap := Num 5000000%float;
     total_volume := Num 3000000%float;
     price_change_percentage_24h := Num 20%float;
     total_supply := Num 100%float;
     circulating_supply := Num 20%float |}.

Definition gem (ident : string) (cap volume change supply circulating : JsValue)
    : Crypto :=
  {| id := ident; name := ident; symbol := ident; image := "";
     market_cap := cap; total_volume := volume;
     price_change_percentage_24h := change;
     total_supply := supply; circulating_supply := circulating |}.

(** Scenario B of the specification: volume/cap ratio 0.025. *)
Definition scenarioB : Crypto :=
  gem "b" (Num 80000000%float) (Num 2000000%float) (Num 5%float) Undefined Undefined.

(** A low-cap record scoring below Scenario A. *)
Definition quiet : Crypto :=
  gem "q" (Num 40000000%float) (Num 8000000%float) (Num 1%float)
    (Num 100%float) (Num 90%float).

Definition sampleHeap : heap := {[ 1%positive := [quiet; scenarioB; scenarioA] ]}.

(** Three records ranked by [total_supply], the middle one lacking it. *)
Definition supply3 : Crypto :=
  gem "s3" (Num 1%float) (Num 1%float) (Num 0%float) (Num 3%float) (Num 1%float).
Definition supplyMissing : Crypto :=
  gem "s?" (Num 1%float) (Num 1%float) (Num 0%float) Undefined (Num 1%float).
Definition supply1 : Crypto :=
  gem "s1" (Num 1%float) (Num 1%float) (Num 0%float) (Num 1%float) (Num 1%float).

(** Both supply fields present, nothing in circulation yet. *)
Definition zeroCirculating : Crypto :=
  gem "Z" (Num 5000000%float) (Num 3000000%float) (Num 20%float)
    (Num 100%float) (Num 0%float).

(** Volume above market cap. *)
Definition hotGem : Crypto :=
  gem "hot" (Num 5000000%float) (Num 6000000%float) (Num 1%float) Undefined Undefined.

(** A record with a boolean for a volume. *)
Definition booleanVolume : Crypto :=
  gem "bv" (Num 5%float) (Bool true) (Num 0%float) Undefined Undefined.

(** A value the filter screens out wherever it stands for the market cap
    or the volume: missing, [null], [false] or NaN. *)
Definition screened (v : JsValue) : Prop :=
  match v with
  | Undefined | Null | Bool false => True
  | Bool true => False
  | Num x => isNaN x = true
  end.

(** The contents of the array [sortData] returns, from those of [data]. *)
Definition rank (sortField : SortField) (sortDirection : SortDirection)
    (l : list Crypto) : list Crypto :=
  sort_list (compareFn sortField sortDirection) l.

(** The number a record is ranked by. *)
Definition sortKey (sortField : SortField) (r : Crypto) : number :=
  match sortField with
  | PotentialScore => value (analyzePotential r)
  | Property f => ToNumber (get f r)
  end.

(** [x] may stand before [y]: higher first when descending. *)
Definition inOrder (sortDirection : SortDirection) (x y : number) : Prop :=
  match sortDirection with
  | Desc => lessThan x y = false
  | Asc => greaterThan x y = false
  end.

(** Every record has a key to compare: the score always is one, a property
    is when it does not coerce to NaN. *)
Definition sortable (sortField : SortField) (l : list Crypto) : Prop :=
  Forall (fun r => isNaN (sortKey sortField r) = false) l.

(** ** Binary64 numbers: order code, exact magnitude and sign *)

Module Binary64.

Abbreviation fexp64 := (fexp prec emax).

(** An order-preserving code of the non-NaN numbers. *)
Definition ord (x : spec_float) : Z :=
  match x with
  | S754_zero _ => 0
  | S754_nan => 0
  | S754_infinity s =>
      if s then - (2048 * 9007199254740992) else 2048 * 9007199254740992
  | S754_finite s m e =>
      let k := (e + 1075) * 9007199254740992 + Z.pos m in
      if s then - k else k
  end.

Definition not_nan (x : spec_float) : Prop :=
  match x with S754_nan => False | _ => True end.

(** The value of a finite number in units of 2^-1074, an integer. *)
Definition magnitude (x : spec_float) : Z :=
  match x with
  | S754_finite s m e =>
      let v := Z.pos m * 2 ^ (e + 1074) in if s then - v else v
  | _ => 0
  end.

Definition finite_or_zero (x : spec_float) : Prop :=
  match x with S754_finite _ _ _ | S754_zero _ => True | _ => False end.

(** The sign of a result, as a three-way outcome. *)
Definition sign_of (x : spec_float) : comparison :=
  match x with
  | S754_finite s _ _ | S754_infinity s => if s then Lt else Gt
  | _ => Eq
  end.

Definition half64 : spec_float := S754_finite false 4503599627370496 (-53).

(** The order code of a number. *)
Definition code (x : number) : Z := ord (Prim2SF x).

(** The code oriented by the sort direction: smaller stands first. *)
Definition dirKey (sortDirection : SortDirection) (x : number) : Z :=
  match sortDirection with
  | Desc => - code x
  | Asc => code x
  end.

(** The three-way outcome a sort reads off a comparator's result. *)
Definition outcome (v : number) : comparison :=
  if lessThan v 0%float then Lt else if greaterThan v 0%float then Gt else Eq.

End Binary64.

(** ** The rest of the component: state, [fetchCryptoData], rendering *)

(** [a.slice(start, end)] for non-negative integer bounds: a new array. *)
Definition Array_slice (first last : nat) (a : ref) : Js ref :=
  l ← read a; alloc (take (last - first) (drop first l)).

(** The state held by the [useState] hooks. [error] is [null] or the
    message of what was caught. *)
Record AppState : Type := {
  cryptoData : ref;
  loading : bool;
  error : option string;
  stateSortField : SortField;
  stateSortDirection : SortDirection
}.

Definition setCryptoData (data : ref) (st : AppState) : AppState :=
  {| cryptoData := data; loading := loading st; error := error st;
     stateSortField := stateSortField st;
     stateSortDirection := stateSortDirection st |}.

Definition setLoading (b : bool) (st : AppState) : AppState :=
  {| cryptoData := cryptoData st; loading := b; error := error st;
     stateSortField := stateSortField st;
     stateSortDirection := stateSortDirection st |}.

Definition setError (e : option string) (st : AppState) : AppState :=
  {| cryptoData := cryptoData st; loading := loading st; error := e;
     stateSortField := stateSortField st;
     stateSortDirection := stateSortDirection st |}.

(** The initial values of the hooks: [useState([])], [useState(true)],
    [useState(null)], [useState('potentialScore')], [useState('desc')]. *)
Definition initialState : Js AppState :=
  empty ← alloc [];
  mret {| cryptoData := empty; loading := true; error := None;
          stateSortField := PotentialScore; stateSortDirection := Desc |}.

(** What the network gives [fetchCryptoData]: [fetch] rejects, or there is
    a response, whose body fails to parse or parses to an array of
    objects or to something else (on which [data.filter] throws, with the
    engine's message). *)
Inductive Json : Type :=
  | JsonArray (records : list Crypto)
  | JsonOther (complaint : string).

Inductive Body : Type :=
  | BodyUnreadable (message : string)
  | BodyJson (data : Json).

Inductive FetchResult : Type :=
  | Rejected (message : string)
  | Responded (ok : bool) (body : Body).

(** The [try] block: the filtered array, or the message of what it threw. *)
Definition fetchAndFilter (result : FetchResult) (h : heap)
    : string + (ref * heap) :=
  match result with
  | Rejected message => inl message
  | Responded ok body =>
      if negb ok then inl "Failed to fetch data"
      else
        match body with
        | BodyUnreadable message => inl message
        | BodyJson (JsonOther complaint) => inl complaint
        | BodyJson (JsonArray records) =>
            match (data ← alloc records; potentialGems data) h with
            | Normal r => inr r
            | TypeError msg => inl msg
            end
        end
  end.

(** [fetchCryptoData]: the [try] block, then the setters of either branch.
    The [catch] runs in the heap the [try] started in: all the block may
    have done before throwing is allocate. *)
Definition fetchCryptoData (result : FetchResult) (st : AppState) : Js AppState :=
  fun h =>
    match fetchAndFilter result h with
    | inr (potentialGems, h') =>
        Normal (setLoading false (setCryptoData potentialGems st), h')
    | inl message =>
        Normal (setLoading false (setError (Some message) st), h)
    end.

(** One bar of the chart. *)
Record ChartEntry : Type := {
  chart_name : string;
  chart_score : number;
  chart_marketCap : JsValue
}.

(** One card of the detailed analysis. *)
Record Card : Type := {
  card_key : string;
  card_image : string;
  card_name : string;
  card_symbol : string;
  card_score : number;
  card_analysis : string;
  card_factors : string
}.

(** What the component returns. *)
Inductive View : Type :=
  | LoadingView
  | ErrorView (message : string)
  | Dashboard (chartData : list ChartEntry) (cards : list Card).

(** [if (error)]: [null] and the empty string are falsy. *)
Definition shownError (e : option string) : option string :=
  match e with
  | Some "" => None
  | Some message => Some message
  | None => None
  end.

(** A completion reached without touching the heap. *)
Definition completed {A : Type} (c : Completion A) : Js A :=
  fun h =>
    match c with
    | Normal a => Normal (a, h)
    | TypeError msg => TypeError msg
    end.

Section Rendering.

(** String.prototype.toUpperCase, the engine's Unicode mapping. *)
Variable toUpperCase : string -> string.

Definition chartEntry (crypto : Crypto) : ChartEntry :=
  {| chart_name := toUpperCase (symbol crypto);
     chart_score := value (analyzePotential crypto);
     chart_marketCap := market_cap crypto |}.

Definition card (crypto : Crypto) : Completion Card :=
  let potential := analyzePotential crypto in
  match generateAnalysis crypto with
  | Normal analysis =>
      Normal {| card_key := id crypto;
                card_image := image crypto;
                card_name := name crypto;
                card_symbol := toUpperCase (symbol crypto);
                card_score := value potential;
                card_analysis := analysis;
                card_factors := String.concat " â€¢ " (factors potential) |}
  | TypeError msg => TypeError msg
  end.

(** [top10Tokens.map(...)] over the cards: the first throw ends it. *)
Fixpoint cardsOf (tokens : list Crypto) : Completion (list Card) :=
  match tokens with
  | [] => Normal []
  | crypto :: rest =>
      match card crypto with
      | Normal c =>
          match cardsOf rest with
          | Normal cs => Normal (c :: cs)
          | TypeError msg => TypeError msg
          end
      | TypeError msg => TypeError msg
      end
  end.

(** The body of the component after the hooks. *)
Definition render (st : AppState) : Js View :=
  if loading st then mret LoadingView
  else
    match shownError (error st) with
    | Some message => mret (ErrorView message)
    | None =>
        sortedData ← sortData (stateSortField st) (stateSortDirection st) (cryptoData st);
        top10Tokens ← Array_slice 0 10 sortedData;
        tokens ← read top10Tokens;
        let chartData := List.map chartEntry tokens in
        cards ← completed (cardsOf tokens);
        mret (Dashboard chartData cards)
    end.

(** Mount: the first render, then the effect's fetch, then the render it
    causes. *)
Definition mount (result : FetchResult) : Js (View * View) :=
  st ← initialState;
  first ← render st;
  st' ← fetchCryptoData result st;
  second ← render st';
  mret (first, second).

End Rendering.

(** A record the narrator has a sentence for: its 24h change is a number,
    or is not above zero. [toFixed] is called on the change only when it
    is above zero, and a number has the method. *)
Definition drawable (r : Crypto) : Prop :=
  (exists x, price_change_percentage_24h r = Num x) \/
  greaterThan (ToNumber (price_change_percentage_24h r)) 0%float = false.

(** [toUpperCase] on the letters a to z, all the mapping does to a string
    of ASCII characters. *)
Definition upperLatinChar (c : ascii) : ascii :=
  let n := nat_of_ascii c in
  if (97 <=? n)%nat && (n <=? 122)%nat then ascii_of_nat (n - 32) else c.

Fixpoint upperLatin (s : string) : string :=
  match s with
  | EmptyString => EmptyString
  | String c rest => String (upperLatinChar c) (upperLatin rest)
  end.

(** * Properties *)

(** ** Facts about binary64 arithmetic, from its specification *)

Module Binary64Facts.
Import Binary64.

Lemma digits2_size p : digits2_pos p = Pos.size p.
Proof. induction p; cbn; congruence. Qed.

Lemma Zdigits2_log2 m : 0 < m -> Zdigits2 m = Z.log2 m + 1.
Proof.
  destruct m as [| p | p]; try lia. intros _. cbn [Zdigits2].
  rewrite digits2_size. destruct p; cbn; lia.
Qed.

Lemma Zdigits2_bounds m : 0 < m -> 2 ^ (Zdigits2 m - 1) <= m < 2 ^ Zdigits2 m.
Proof.
  intros Hm. rewrite Zdigits2_log2 by assumption.
  replace (Z.log2 m + 1 - 1) with (Z.log2 m) by lia.
  replace (Z.log2 m + 1) with (Z.succ (Z.log2 m)) by lia.
  now apply Z.log2_spec.
Qed.

Lemma Zdigits2_pos m : 0 < m -> 0 < Zdigits2 m.
Proof.
  intros Hm. rewrite Zdigits2_log2 by assumption.
  pose proof (Z.log2_nonneg m). lia.
Qed.

Lemma Zdigits2_ge m n : 0 <= n -> 2 ^ n <= m -> n + 1 <= Zdigits2 m.
Proof.
  intros Hn H.
  assert (0 < m) by (pose proof (Z.pow_pos_nonneg 2 n); lia).
  rewrite Zdigits2_log2 by assumption.
  apply Z.log2_le_pow2 in H; lia.
Qed.

(** Shifting right keeps the mantissa the quotient by the power of two. *)
Lemma shr_1_m mrs : 0 <= shr_m mrs -> shr_m (shr_1 mrs) = shr_m mrs / 2.
Proof.
  destruct mrs as [m r s]; cbn [shr_m]. intros Hm.
  destruct m as [| p | p]; [reflexivity | | lia].
  destruct p as [p | p |]; cbn [shr_1 shr_m].
  - apply Z.div_unique with 1; lia.
  - apply Z.div_unique with 0; lia.
  - reflexivity.
Qed.

Lemma iter_shr_1_m p : forall mrs,
  0 <= shr_m mrs -> shr_m (SpecFloat.iter_pos shr_1 p mrs) = shr_m mrs / 2 ^ Z.pos p.
Proof.
  assert (Hdiv : forall a b, 0 < b -> 0 <= a -> 0 <= a / b)
    by (intros; apply Z.div_pos; lia).
  induction p as [p IH | p IH |]; intros mrs Hm; cbn [SpecFloat.iter_pos].
  - assert (H1 : 0 <= shr_m (shr_1 mrs)) by (rewrite shr_1_m by lia; apply Hdiv; lia).
    assert (H2 : 0 <= shr_m (SpecFloat.iter_pos shr_1 p (shr_1 mrs)))
      by (rewrite IH by lia; apply Hdiv; [apply Z.pow_pos_nonneg|]; lia).
    rewrite IH, IH, shr_1_m by lia.
    rewrite !Z.div_div by (try apply Z.pow_pos_nonneg; lia).
    f_equal.
    replace (Z.pos p~1) with (1 + Z.pos p + Z.pos p) by lia.
    rewrite !Z.pow_add_r by lia. ring.
  - assert (H2 : 0 <= shr_m (SpecFloat.iter_pos shr_1 p mrs))
      by (rewrite IH by lia; apply Hdiv; [apply Z.pow_pos_nonneg|]; lia).
    rewrite IH, IH by lia.
    rewrite !Z.div_div by (try apply Z.pow_pos_nonneg; lia).
    f_equal.
    replace (Z.pos p~0) with (Z.pos p + Z.pos p) by lia.
    rewrite !Z.pow_add_r by lia. ring.
  - rewrite shr_1_m by lia. reflexivity.
Qed.

Lemma shr_record_of_loc_m m l : shr_m (shr_record_of_loc m l) = m.
Proof. destruct l as [| []]; reflexivity. Qed.

Lemma round_nearest_even_pos m l : 0 < m -> 0 < round_nearest_even m l.
Proof.
  intros Hm. destruct l as [| []]; cbn; try lia.
  destruct (Z.even m); lia.
Qed.

(** One normalising shift: the mantissa stays positive and the exponent
    only grows, at least to the exponent of the format. *)
Lemma shr_fexp_shape m e l :
  0 < m -> -1074 <= e ->
  exists mrs e',
    shr_fexp prec emax m e l = (mrs, e') /\
    0 < shr_m mrs /\ e <= e' /\ Zdigits2 m + e - 53 <= e'.
Proof.
  intros Hm He. unfold shr_fexp, shr.
  pose proof (Zdigits2_bounds m Hm) as [Hlo _].
  pose proof (Zdigits2_pos m Hm) as Hd.
  destruct (fexp64 (Zdigits2 m + e) - e) as [| p | p] eqn:En;
    unfold fexp, SpecFloat.emin, prec, emax in En.
  - eexists _, _; split; [reflexivity |].
    rewrite shr_record_of_loc_m. lia.
  - eexists _, _; split; [reflexivity |].
    rewrite iter_shr_1_m by (rewrite shr_record_of_loc_m; lia).
    rewrite shr_record_of_loc_m.
    assert (Ep : Z.pos p = Zdigits2 m - 53) by lia.
    repeat split; try lia.
    apply Z.div_str_pos. split; [apply Z.pow_pos_nonneg; lia |].
    etransitivity; [| exact Hlo].
    apply Z.pow_le_mono_r; lia.
  - eexists _, _; split; [reflexivity |].
    rewrite shr_record_of_loc_m. lia.
Qed.

(** Rounding a positive mantissa never yields zero or NaN, keeps the sign
    and does not lower the exponent. *)
Lemma binary_round_aux_shape sx m e l :
  0 < m -> -1074 <= e ->
  binary_round_aux prec emax sx m e l = S754_infinity sx \/
  exists m' e',
    binary_round_aux prec emax sx m e l = S754_finite sx m' e' /\
    e <= e' /\ Zdigits2 m + e - 53 <= e'.
Proof.
  intros Hm He. unfold binary_round_aux.
  destruct (shr_fexp_shape m e l Hm He) as (mrs & e1 & -> & Hm1 & He1 & Hd1).
  pose proof (round_nearest_even_pos _ (loc_of_shr_record mrs) Hm1) as Hr.
  destruct (shr_fexp_shape _ e1 loc_Exact Hr ltac:(lia))
    as (mrs2 & e2 & -> & Hm2 & He2 & _).
  destruct (shr_m mrs2) as [| m2 | m2]; try lia.
  destruct (e2 <=? emax - prec); [right | left; reflexivity].
  exists m2, e2. repeat split; lia.
Qed.

Lemma binary_round_shape sx m e :
  -1074 <= e ->
  binary_round prec emax sx m e = S754_infinity sx \/
  exists m' e', binary_round prec emax sx m e = S754_finite sx m' e'.
Proof.
  intros He. unfold binary_round, shl_align.
  set (k := fexp64 (Z.pos (digits2_pos m) + e)).
  assert (Hk : -1074 <= k) by (subst k; unfold fexp, SpecFloat.emin, prec, emax; lia).
  destruct (k - e) as [| d | d];
    (match goal with
     | |- context [binary_round_aux _ _ _ (Z.pos ?mz) ?ez _] =>
         destruct (binary_round_aux_shape sx (Z.pos mz) ez loc_Exact)
           as [H | (m' & e' & H & _)]; [lia | lia | now left | right; eauto]
     end).
Qed.

(** *** Valid numbers and their order *)

Lemma bounded_facts m e :
  bounded prec emax m e = true ->
  Z.pos m < 9007199254740992 /\ -1074 <= e <= 971 /\
  (e = -1074 \/ 4503599627370496 <= Z.pos m).
Proof.
  unfold bounded, canonical_mantissa, fexp, SpecFloat.emin, prec, emax.
  intros H. apply andb_prop in H as [H1 H2].
  apply Z.eqb_eq in H1. apply Z.leb_le in H2.
  pose proof (Zdigits2_bounds (Z.pos m) ltac:(lia)) as [Hlo Hhi].
  cbn [Zdigits2] in Hlo, Hhi.
  assert (Hd : Z.pos (digits2_pos m) <= 53) by lia.
  repeat split; try lia.
  - eapply Z.lt_le_trans; [exact Hhi |].
    change 9007199254740992 with (2 ^ 53). apply Z.pow_le_mono_r; lia.
  - destruct (Z.eq_dec e (-1074)) as [| Hne]; [now left | right].
    assert (Ed : Z.pos (digits2_pos m) = 53) by lia.
    rewrite Ed in Hlo. exact Hlo.
Qed.

Lemma SFcompare_ord x y :
  valid_binary x = true -> valid_binary y = true -> not_nan x -> not_nan y ->
  SFcompare x y = Some (ord x ?= ord y).
Proof.
  intros Vx Vy Nx Ny.
  destruct x as [sx | sx | | sx mx ex], y as [sy | sy | | sy my ey];
    try contradiction; cbn [valid_binary] in Vx, Vy;
    try (apply bounded_facts in Vx); try (apply bounded_facts in Vy);
    cbn [SFcompare ord]; f_equal; symmetry.
  all: try (destruct sx); try (destruct sy); try reflexivity.
  all: try (apply Z.compare_lt_iff; lia); try (apply Z.compare_gt_iff; lia).
  all: change (Pos.compare_cont Eq mx my) with (mx ?= my)%positive;
    destruct (Z.compare_spec ex ey) as [He | He | He];
    [ subst ey; destruct (Pos.compare_spec mx my) as [Hm | Hm | Hm]; cbn [CompOpp] | | ].
  all: try subst my.
  all: try (apply Z.compare_eq_iff; lia);
    try (apply Z.compare_lt_iff; lia); try (apply Z.compare_gt_iff; lia).
Qed.

Ltac compare_both c :=
  transitivity c; [| symmetry];
  (apply Z.compare_lt_iff || apply Z.compare_gt_iff || apply Z.compare_eq_iff).

Lemma lex_mul_lt m A m' A' H :
  0 < A -> 2 * A <= A' -> m < 2 * H -> 0 < H <= m' -> m * A < m' * A'.
Proof.
  intros HA HA' Hm Hm'.
  assert (0 < (2 * H - m) * A) by (apply Z.mul_pos_pos; lia).
  assert (0 <= (m' - H) * A') by (apply Z.mul_nonneg_nonneg; lia).
  assert (0 <= H * (A' - 2 * A)) by (apply Z.mul_nonneg_nonneg; lia).
  lia.
Qed.

Lemma mantissa_order m e m' e' :
  bounded prec emax m e = true -> bounded prec emax m' e' = true ->
  (Z.pos m * 2 ^ (e + 1074) ?= Z.pos m' * 2 ^ (e' + 1074))
  = ((e + 1075) * 9007199254740992 + Z.pos m
     ?= (e' + 1075) * 9007199254740992 + Z.pos m').
Proof.
  intros V V'. apply bounded_facts in V as (Hm & He & Hn).
  apply bounded_facts in V' as (Hm' & He' & Hn').
  assert (Hstep : forall a b, 0 <= a -> a < b -> 2 * 2 ^ a <= 2 ^ b).
  { intros a b Ha Hab. rewrite <- Z.pow_succ_r by lia.
    apply Z.pow_le_mono_r; lia. }
  assert (HA : 0 < 2 ^ (e + 1074)) by (apply Z.pow_pos_nonneg; lia).
  assert (HA' : 0 < 2 ^ (e' + 1074)) by (apply Z.pow_pos_nonneg; lia).
  destruct (Z.lt_trichotomy e e') as [H | [H | H]].
  - pose proof (Hstep (e + 1074) (e' + 1074) ltac:(lia) ltac:(lia)).
    compare_both Lt; [| lia].
    apply lex_mul_lt with 4503599627370496; lia.
  - subst e'. destruct (Z.lt_trichotomy (Z.pos m) (Z.pos m')) as [H | [H | H]].
    + compare_both Lt; [| lia]. apply Z.mul_lt_mono_pos_r; lia.
    + rewrite H. now rewrite !Z.compare_refl.
    + compare_both Gt; [| lia]. apply Z.mul_lt_mono_pos_r; lia.
  - pose proof (Hstep (e' + 1074) (e + 1074) ltac:(lia) ltac:(lia)).
    compare_both Gt; [| lia].
    apply lex_mul_lt with 4503599627370496; lia.
Qed.

Lemma magnitude_ord x y :
  valid_binary x = true -> valid_binary y = true ->
  finite_or_zero x -> finite_or_zero y ->
  (magnitude x ?= magnitude y) = (ord x ?= ord y).
Proof.
  intros Vx Vy Fx Fy.
  destruct x as [sx | sx | | sx mx ex], y as [sy | sy | | sy my ey];
    try contradiction; cbn [valid_binary] in Vx, Vy; cbn [magnitude ord];
    try reflexivity.
  - apply bounded_facts in Vy as (Hm & He & _).
    assert (0 < Z.pos my * 2 ^ (ey + 1074))
      by (apply Z.mul_pos_pos; [| apply Z.pow_pos_nonneg]; lia).
    destruct sy; [compare_both Gt | compare_both Lt]; lia.
  - apply bounded_facts in Vx as (Hm & He & _).
    assert (0 < Z.pos mx * 2 ^ (ex + 1074))
      by (apply Z.mul_pos_pos; [| apply Z.pow_pos_nonneg]; lia).
    destruct sx; [compare_both Lt | compare_both Gt]; lia.
  - pose proof (mantissa_order mx ex my ey Vx Vy) as Hc.
    pose proof (mantissa_order my ey mx ex Vy Vx) as Hc'.
    apply bounded_facts in Vx as (Hmx & Hex & _).
    apply bounded_facts in Vy as (Hmy & Hey & _).
    assert (0 < Z.pos mx * 2 ^ (ex + 1074))
      by (apply Z.mul_pos_pos; [| apply Z.pow_pos_nonneg]; lia).
    assert (0 < Z.pos my * 2 ^ (ey + 1074))
      by (apply Z.mul_pos_pos; [| apply Z.pow_pos_nonneg]; lia).
    destruct sx, sy.
    + rewrite !Z.compare_opp. exact Hc'.
    + clear Hc Hc'. compare_both Lt; lia.
    + clear Hc Hc'. compare_both Gt; lia.
    + exact Hc.
Qed.

Lemma iter_xO m d : Z.pos (Pos.iter xO m d) = Z.pos m * 2 ^ Z.pos d.
Proof.
  induction d as [| d IH] using Pos.peano_ind.
  - cbn. lia.
  - rewrite Pos.iter_succ, Pos2Z.inj_xO, IH, Pos2Z.inj_succ, Z.pow_succ_r by lia.
    ring.
Qed.

Lemma shl_align_fst m e e' :
  e' <= e -> Z.pos (fst (shl_align m e e')) = Z.pos m * 2 ^ (e - e').
Proof.
  intros H. unfold shl_align.
  destruct (e' - e) as [| d | d] eqn:Ed; cbn [fst]; try lia.
  - replace (e - e') with 0 by lia. lia.
  - rewrite iter_xO. f_equal. f_equal. lia.
Qed.

Lemma SFsub_sign x y :
  valid_binary x = true -> valid_binary y = true -> not_nan x -> not_nan y ->
  sign_of (SF64sub x y) = (ord x ?= ord y).
Proof.
  intros Vx Vy Nx Ny.
  destruct x as [sx | sx | | sx mx ex], y as [sy | sy | | sy my ey];
    try contradiction.
  1-8: cbn [valid_binary] in Vx, Vy;
    try (apply bounded_facts in Vx as (? & ? & _));
    try (apply bounded_facts in Vy as (? & ? & _));
    try destruct sx; try destruct sy; unfold SF64sub;
    cbn [SFsub sign_of ord negb]; try reflexivity; symmetry;
    (apply Z.compare_lt_iff || apply Z.compare_gt_iff); lia.
  rewrite <- magnitude_ord by (assumption || exact I).
  cbn [valid_binary] in Vx, Vy.
  apply bounded_facts in Vx as (Hmx & Hex & _).
  apply bounded_facts in Vy as (Hmy & Hey & _).
  unfold SF64sub, SFsub.
  assert (Hez : -1074 <= Z.min ex ey <= ex /\ Z.min ex ey <= ey) by lia.
  cbv zeta. generalize dependent (Z.min ex ey). intros ez Hez.
  rewrite !shl_align_fst by lia.
  set (D := cond_Zopp sx _ - cond_Zopp sy _).
  assert (HD : D * 2 ^ (ez + 1074)
               = magnitude (S754_finite sx mx ex) - magnitude (S754_finite sy my ey)).
  { subst D. cbn [magnitude].
    replace (ex + 1074) with ((ex - ez) + (ez + 1074)) by lia.
    replace (ey + 1074) with ((ey - ez) + (ez + 1074)) by lia.
    rewrite (Z.pow_add_r 2 (ex - ez)), (Z.pow_add_r 2 (ey - ez)) by lia.
    destruct sx, sy; cbn [cond_Zopp]; ring. }
  assert (HP : 0 < 2 ^ (ez + 1074)) by (apply Z.pow_pos_nonneg; lia).
  unfold binary_normalize.
  destruct D as [| d | d].
  - cbn [sign_of]. symmetry. apply Z.compare_eq_iff. lia.
  - assert (0 < Z.pos d * 2 ^ (ez + 1074)) by (apply Z.mul_pos_pos; lia).
    destruct (binary_round_shape false d ez ltac:(lia)) as [-> | (m' & e' & ->)];
      cbn [sign_of]; symmetry; apply Z.compare_gt_iff; lia.
  - assert (0 < Z.pos d * 2 ^ (ez + 1074)) by (apply Z.mul_pos_pos; lia).
    replace (Z.neg d) with (- Z.pos d) in HD by lia.
    destruct (binary_round_shape true d ez ltac:(lia)) as [-> | (m' & e' & ->)];
      cbn [sign_of]; symmetry; apply Z.compare_lt_iff; lia.
Qed.

Lemma bounded_digits m e :
  bounded prec emax m e = true ->
  1 <= Zdigits2 (Z.pos m) <= 53 /\ (e = -1074 \/ Zdigits2 (Z.pos m) = 53).
Proof.
  unfold bounded, canonical_mantissa, fexp, SpecFloat.emin, prec, emax.
  intros H. apply andb_prop in H as [H1 H2].
  apply Z.eqb_eq in H1. cbn [Zdigits2]. lia.
Qed.

(** A positive number divided by a smaller positive one is above 1/2. *)
Lemma SFdiv_gt_half x y :
  valid_binary x = true -> valid_binary y = true ->
  SFltb (S754_zero false) y = true -> SFltb y x = true ->
  SFltb half64 (SF64div x y) = true.
Proof.
  intros Vx Vy Hy Hxy.
  destruct y as [sy | [|] | | [|] my ey]; try discriminate.
  { destruct x as [sx | [|] | | [|] mx ex]; discriminate. }
  destruct x as [sx | [|] | | [|] mx ex]; try discriminate.
  { reflexivity. }
  cbn [valid_binary] in Vx, Vy.
  pose proof (bounded_digits _ _ Vx) as (Hd1 & Hn1).
  pose proof (bounded_digits _ _ Vy) as (Hd2 & Hn2).
  apply bounded_facts in Vx as (Hmx & Hex & Hnx).
  apply bounded_facts in Vy as (Hmy & Hey & Hny).
  assert (Hord : ey < ex \/ (ey = ex /\ Z.pos my < Z.pos mx)).
  { unfold SFltb in Hxy; cbn [SFcompare] in Hxy.
    change (Pos.compare_cont Eq my mx) with (my ?= mx)%positive in Hxy.
    destruct (Z.compare_spec ey ex) as [He | He | He]; try discriminate; [right | now left].
    destruct (Pos.compare_spec my mx) as [Hm | Hm | Hm]; try discriminate.
    split; [assumption | lia]. }
  clear Hy Hxy.
  assert (Hlt : Z.pos my < Z.pos mx * 2 ^ (ex - ey)).
  { destruct Hord as [He | [-> Hm]].
    - assert (2 ^ 1 <= 2 ^ (ex - ey)) by (apply Z.pow_le_mono_r; lia).
      assert (0 <= (Z.pos mx - 4503599627370496) * 2 ^ (ex - ey))
        by (apply Z.mul_nonneg_nonneg; lia).
      lia.
    - rewrite Z.sub_diag. lia. }
  unfold SF64div, SFdiv, SFdiv_core_binary.
  set (d1 := Zdigits2 (Z.pos mx)) in *. set (d2 := Zdigits2 (Z.pos my)) in *.
  pose proof (Zdigits2_bounds (Z.pos my) ltac:(lia)) as [_ Hmy2]. fold d2 in Hmy2.
  clearbody d1 d2.
  unfold fexp, SpecFloat.emin, prec, emax.
  set (e' := Z.min (Z.max (d1 + ex - (d2 + ey) - 53) (3 - 1024 - 53)) (ex - ey)).
  assert (He' : -1074 <= e' /\ d2 <= ex - ey - e') by lia.
  assert (Hs : ex - ey - e' = (ex - ey) + (- e') ) by lia.
  clearbody e'.
  destruct (ex - ey - e') as [| s | s] eqn:Es; try lia.
  rewrite Z.shiftl_mul_pow2 by lia.
  destruct (Z.div_eucl (Z.pos mx * 2 ^ Z.pos s) (Z.pos my)) as [q r] eqn:Ediv.
  assert (Eq : q = Z.pos mx * 2 ^ Z.pos s / Z.pos my)
    by (unfold Z.div; now rewrite Ediv).
  assert (Hq1 : 2 ^ (Z.pos s - d2) <= q).
  { rewrite Eq. apply Z.div_le_lower_bound; [lia |].
    assert (0 < 2 ^ (Z.pos s - d2)) by (apply Z.pow_pos_nonneg; lia).
    assert (E2 : 2 ^ Z.pos s = 2 ^ d2 * 2 ^ (Z.pos s - d2))
      by (rewrite <- Z.pow_add_r by lia; f_equal; lia).
    rewrite E2.
    assert (0 <= (2 ^ d2 - Z.pos my) * 2 ^ (Z.pos s - d2))
      by (apply Z.mul_nonneg_nonneg; lia).
    assert (0 <= (Z.pos mx - 1) * (2 ^ d2 * 2 ^ (Z.pos s - d2)))
      by (apply Z.mul_nonneg_nonneg; [lia |]; apply Z.mul_nonneg_nonneg; lia).
    lia. }
  assert (Hq : 0 < q).
  { assert (0 < 2 ^ (Z.pos s - d2)) by (apply Z.pow_pos_nonneg; lia). lia. }
  assert (Hq2 : e' <= 0 -> 2 ^ (- e') <= q).
  { intros Hneg. rewrite Eq. apply Z.div_le_lower_bound; [lia |].
    rewrite Hs, Z.pow_add_r by lia.
    assert (0 < 2 ^ (- e')) by (apply Z.pow_pos_nonneg; lia).
    assert (0 <= (Z.pos mx * 2 ^ (ex - ey) - Z.pos my) * 2 ^ (- e'))
      by (apply Z.mul_nonneg_nonneg; lia).
    lia. }
  pose proof (binary_round_aux_shape (xorb false false) q e'
                (new_location (Z.pos my) r) Hq ltac:(lia)) as Hshape.
  unfold prec, emax in Hshape.
  destruct Hshape as [-> | (m'' & e'' & -> & Hge & Hdig)]; [reflexivity |].
  assert (He'' : -53 < e'').
  { destruct (Z.le_gt_cases e' (-53)) as [Hle | Hgt]; [| lia].
    pose proof (Zdigits2_ge q (- e') ltac:(lia) (Hq2 ltac:(lia))). lia. }
  unfold SFltb, half64; cbn [SFcompare xorb].
  now rewrite (proj2 (Z.compare_lt_iff _ _) He'').
Qed.

(** *** The same facts on numbers *)

Lemma isNaN_spec x :
  isNaN x = match Prim2SF x with S754_nan => true | _ => false end.
Proof.
  unfold isNaN, PrimFloat.is_nan. rewrite FloatAxioms.eqb_spec. unfold SFeqb.
  destruct (Prim2SF x) as [s | s | | s m e]; cbn [SFcompare]; try reflexivity.
  - now destruct s.
  - rewrite Z.compare_refl.
    change (Pos.compare_cont Eq m m) with (m ?= m)%positive.
    rewrite Pos.compare_refl. now destruct s.
Qed.

Lemma isNaN_false x : isNaN x = false -> not_nan (Prim2SF x).
Proof. rewrite isNaN_spec. now destruct (Prim2SF x). Qed.

Lemma isNaN_true x : isNaN x = true -> Prim2SF x = S754_nan.
Proof. rewrite isNaN_spec. now destruct (Prim2SF x). Qed.

Lemma lessThan_code x y :
  isNaN x = false -> isNaN y = false -> lessThan x y = (code x <? code y).
Proof.
  intros Hx Hy. unfold lessThan, code. rewrite FloatAxioms.ltb_spec. unfold SFltb.
  rewrite SFcompare_ord by (apply Prim2SF_valid || now apply isNaN_false).
  reflexivity.
Qed.

Lemma eqb_code x y :
  isNaN x = false -> isNaN y = false -> PrimFloat.eqb x y = (code x =? code y).
Proof.
  intros Hx Hy. unfold code. rewrite FloatAxioms.eqb_spec. unfold SFeqb.
  rewrite SFcompare_ord by (apply Prim2SF_valid || now apply isNaN_false).
  now rewrite Z.eqb_compare.
Qed.

Lemma lessThan_NaN_l x y : isNaN x = true -> lessThan x y = false.
Proof.
  intros Hx. unfold lessThan. rewrite FloatAxioms.ltb_spec, (isNaN_true x Hx). reflexivity.
Qed.

Lemma lessThan_NaN_r x y : isNaN y = true -> lessThan x y = false.
Proof.
  intros Hy. unfold lessThan. rewrite FloatAxioms.ltb_spec, (isNaN_true y Hy).
  unfold SFltb. now destruct (Prim2SF x).
Qed.

Lemma outcome_sign v : outcome v = sign_of (Prim2SF v).
Proof.
  unfold outcome, greaterThan, lessThan. rewrite !FloatAxioms.ltb_spec.
  change (Prim2SF 0%float) with (S754_zero false).
  destruct (Prim2SF v) as [s | [|] | | [|] m e]; reflexivity.
Qed.

(** The sign of a difference is the comparison of its operands. *)
Lemma subtract_outcome x y :
  isNaN x = false -> isNaN y = false ->
  outcome (subtract x y) = (code x ?= code y).
Proof.
  intros Hx Hy. rewrite outcome_sign. unfold subtract. rewrite FloatAxioms.sub_spec.
  apply SFsub_sign; (apply Prim2SF_valid || now apply isNaN_false).
Qed.

Lemma divide_gt_half x y :
  greaterThan y 0%float = true -> greaterThan x y = true ->
  greaterThan (divide x y) 0.5%float = true.
Proof.
  unfold greaterThan, divide. rewrite !FloatAxioms.ltb_spec, FloatAxioms.div_spec.
  change (Prim2SF 0%float) with (S754_zero false).
  change (Prim2SF 0.5%float) with half64.
  apply SFdiv_gt_half; apply Prim2SF_valid.
Qed.

Lemma divide_NaN_l x y : isNaN x = true -> isNaN (divide x y) = true.
Proof.
  intros Hx. rewrite isNaN_spec. unfold divide.
  rewrite FloatAxioms.div_spec, (isNaN_true x Hx). reflexivity.
Qed.

Lemma divide_NaN_r x y : isNaN y = true -> isNaN (divide x y) = true.
Proof.
  intros Hy. rewrite isNaN_spec. unfold divide.
  rewrite FloatAxioms.div_spec, (isNaN_true y Hy). now destruct (Prim2SF x).
Qed.

(** Zero divided by anything is a zero or NaN: never above a positive bound. *)
Lemma divide_zero_l y c :
  greaterThan c 0%float = true -> greaterThan (divide 0%float y) c = false.
Proof.
  unfold greaterThan, divide. rewrite !FloatAxioms.ltb_spec, FloatAxioms.div_spec.
  change (Prim2SF 0%float) with (S754_zero false).
  intros Hc. unfold SFltb in *.
  destruct (Prim2SF c) as [sc | [|] | | [|] mc ec]; try discriminate;
    destruct (Prim2SF y) as [sy | sy | | sy my ey]; reflexivity.
Qed.

End Binary64Facts.


(** ** The scorer against the rule table *)

(** ** Stable insertion under a consistent comparator *)

Section SortFacts.
Context {A : Type} (comparefn : A -> A -> number).
Context (key : A -> Z) (good : A -> Prop).
Hypothesis consistent : forall a b, good a -> good b ->
  greaterThan (SortCompare comparefn a b) 0%float = (key b <? key a).

Lemma insert_sorted_perm x l : insert_sorted comparefn x l ≡ₚ x :: l.
Proof.
  induction l as [| y l IH]; cbn [insert_sorted]; [reflexivity |].
  destruct (greaterThan (SortCompare comparefn x y) 0%float); [| reflexivity].
  rewrite IH. apply perm_swap.
Qed.

Lemma sort_list_cons x l :
  sort_list comparefn (x :: l) = insert_sorted comparefn x (sort_list comparefn l).
Proof. reflexivity. Qed.

Lemma sort_list_perm l : sort_list comparefn l ≡ₚ l.
Proof.
  induction l as [| x l IH]; [reflexivity |].
  now rewrite sort_list_cons, insert_sorted_perm, IH.
Qed.

Lemma insert_sorted_sorted x l :
  good x -> Forall good l ->
  StronglySorted (fun a b => key a <= key b) l ->
  StronglySorted (fun a b => key a <= key b) (insert_sorted comparefn x l).
Proof.
  intros Hx Hl Hs. induction Hs as [| y l Hs IH Hy]; cbn [insert_sorted].
  - repeat constructor.
  - inversion Hl as [| ? ? Hgy Hgl]; subst.
    rewrite consistent by assumption.
    destruct (Z.ltb_spec (key y) (key x)) as [Hlt | Hge].
    + constructor; [now apply IH |].
      rewrite insert_sorted_perm. constructor; [lia | exact Hy].
    + constructor; [now constructor |].
      constructor; [exact Hge |].
      eapply Forall_impl; [exact Hy |]. cbn. intros z Hz. lia.
Qed.

Lemma sort_list_sorted l :
  Forall good l -> StronglySorted (fun a b => key a <= key b) (sort_list comparefn l).
Proof.
  induction l as [| x l IH]; intros Hl; [constructor |].
  inversion Hl; subst. rewrite sort_list_cons.
  apply insert_sorted_sorted; [assumption | | now apply IH].
  now rewrite sort_list_perm.
Qed.

Lemma insert_sorted_stable k x l :
  good x -> Forall good l ->
  List.filter (fun a => key a =? k) (insert_sorted comparefn x l)
  = List.filter (fun a => key a =? k) (x :: l).
Proof.
  intros Hx Hl. induction Hl as [| y l Hy Hl IH]; [reflexivity |].
  cbn [insert_sorted]. rewrite consistent by assumption.
  destruct (Z.ltb_spec (key y) (key x)) as [Hlt | Hge]; [| reflexivity].
  cbn [List.filter] in *. rewrite IH.
  destruct (Z.eqb_spec (key x) k), (Z.eqb_spec (key y) k); try reflexivity. lia.
Qed.

Lemma sort_list_stable k l :
  Forall good l ->
  List.filter (fun a => key a =? k) (sort_list comparefn l)
  = List.filter (fun a => key a =? k) l.
Proof.
  induction l as [| x l IH]; intros Hl; [reflexivity |].
  inversion Hl; subst. rewrite sort_list_cons.
  rewrite insert_sorted_stable by (assumption || now rewrite sort_list_perm).
  cbn [List.filter]. now rewrite IH.
Qed.

(** A stable sorted arrangement is unique: whatever algorithm an engine
    runs, under a consistent comparator it returns what [sort_list] does. *)
Lemma sorted_stable_unique (l1 : list A) : forall l2,
  StronglySorted (fun a b => key a <= key b) l1 ->
  StronglySorted (fun a b => key a <= key b) l2 ->
  (forall k, List.filter (fun a => key a =? k) l1
             = List.filter (fun a => key a =? k) l2) ->
  l1 = l2.
Proof.
  induction l1 as [| x l1 IH]; intros l2 S1 S2 Hf.
  - destruct l2 as [| y l2]; [reflexivity |].
    specialize (Hf (key y)). cbn in Hf. rewrite Z.eqb_refl in Hf. discriminate.
  - destruct l2 as [| y l2].
    { specialize (Hf (key x)). cbn in Hf. rewrite Z.eqb_refl in Hf. discriminate. }
    apply StronglySorted_inv in S1 as [S1 Hx], S2 as [S2 Hy].
    rewrite Forall_forall in Hx, Hy.
    assert (Hyx : key y <= key x).
    { assert (Hin : In x (List.filter (fun a => key a =? key x) (y :: l2))).
      { rewrite <- Hf. cbn. rewrite Z.eqb_refl. now left. }
      apply filter_In in Hin as [[-> | Hin] _]; [lia |].
      now apply Hy, list_elem_of_In. }
    assert (Hxy : key x <= key y).
    { assert (Hin : In y (List.filter (fun a => key a =? key y) (x :: l1))).
      { rewrite Hf. cbn. rewrite Z.eqb_refl. now left. }
      apply filter_In in Hin as [[-> | Hin] _]; [lia |].
      now apply Hx, list_elem_of_In. }
    assert (Hk : key y = key x) by lia.
    pose proof (Hf (key x)) as Hhead. cbn in Hhead.
    rewrite Hk, Z.eqb_refl in Hhead. injection Hhead as -> Htail.
    f_equal. apply IH; [assumption | assumption |].
    intros k. destruct (Z.eq_dec k (key y)) as [-> | Hne]; [exact Htail |].
    specialize (Hf k). cbn in Hf.
    destruct (Z.eqb_spec (key y) k); [congruence | exact Hf].
Qed.

Lemma sort_list_unique l l' :
  Forall good l ->
  StronglySorted (fun a b => key a <= key b) l' ->
  (forall k, List.filter (fun a => key a =? k) l'
             = List.filter (fun a => key a =? k) l) ->
  l' = sort_list comparefn l.
Proof.
  intros Hl Hs Hf. apply sorted_stable_unique; [exact Hs | now apply sort_list_sorted |].
  intros k. now rewrite sort_list_stable.
Qed.

End SortFacts.

Lemma StronglySorted_weaken_in {A} (P : A -> Prop) (R1 R2 : A -> A -> Prop) l :
  Forall P l -> (forall a b, P a -> P b -> R1 a b -> R2 a b) ->
  StronglySorted R1 l -> StronglySorted R2 l.
Proof.
  intros HP Himp Hs. induction Hs as [| x l Hs IH Hx]; [constructor |].
  inversion HP as [| ? ? Px Pl]; subst. constructor; [now apply IH |].
  rewrite Forall_forall in Hx, Pl |- *. intros b Hb. apply Himp; auto.
Qed.

Lemma StronglySorted_weaken {A} (R1 R2 : A -> A -> Prop) l :
  (forall a b, R1 a b -> R2 a b) -> StronglySorted R1 l -> StronglySorted R2 l.
Proof.
  intros Himp Hs. induction Hs as [| x l Hs IH Hx]; constructor; [assumption |].
  eapply Forall_impl; [exact Hx | apply Himp].
Qed.

Ltac split_if :=
  match goal with
  | |- context [if ?c then _ else _] => destruct c
  end.

Section Scorer.
Import RuleTable.

Lemma marketCapRule_table r s : marketCapRule r s = apply r s cap_group.
Proof.
  unfold marketCapRule, apply, contribution; cbn.
  unfold capInMillions.
  do 2 (split_if; [reflexivity |]). reflexivity.
Qed.

Lemma volumeRule_table r s : volumeRule r s = apply r s ratio_group.
Proof.
  unfold volumeRule, apply, contribution; cbn.
  unfold volumeCapRatio.
  do 2 (split_if; [reflexivity |]). reflexivity.
Qed.

Lemma momentumRule_table r s : momentumRule r s = apply r s momentum_group.
Proof.
  unfold momentumRule, apply, contribution; cbn.
  unfold change24h.
  do 2 (split_if; [reflexivity |]). reflexivity.
Qed.

Lemma supplyRule_table r s : supplyRule r s = apply r s supply_group.
Proof.
  unfold supplyRule, apply, contribution; cbn.
  unfold bothSupplied, supplyRatio.
  split_if; [| reflexivity].
  do 2 (split_if; [reflexivity |]). reflexivity.
Qed.

Lemma activityBonus_table r s : activityBonus r s = apply r s bonus_group.
Proof.
  unfold activityBonus, apply, contribution; cbn.
  split_if; reflexivity.
Qed.

(** The scorer is the table folded over the empty score. *)
Lemma analyzePotential_fold r :
  analyzePotential r = foldl (apply r) {| value := 0%float; factors := [] |} table.
Proof.
  unfold analyzePotential; cbn [foldl table].
  rewrite marketCapRule_table, volumeRule_table, momentumRule_table,
    supplyRule_table, activityBonus_table.
  reflexivity.
Qed.

Lemma factors_fold r gs : forall s,
  factors (foldl (apply r) s gs)
  = (factors s ++ (tier_text <$> omap (contribution r) gs))%list.
Proof.
  induction gs as [| g gs IH]; intros s; cbn.
  - now rewrite app_nil_r.
  - rewrite IH. unfold apply.
    destruct (contribution r g) as [t |]; cbn; [| reflexivity].
    now rewrite <- app_assoc.
Qed.

(** Adding small integers is exact. *)
Lemma of_Z_add_small n p :
  0 <= n <= 16 -> 0 <= p <= 4 -> add (of_Z n) (of_Z p) = of_Z (n + p).
Proof.
  intros Hn Hp.
  assert (En : n ∈ seqZ 0 17) by (apply elem_of_seqZ; lia).
  assert (Ep : p ∈ seqZ 0 5) by (apply elem_of_seqZ; lia).
  vm_compute in En, Ep.
  repeat (apply elem_of_cons in En as [-> | En]);
    try (now apply elem_of_nil in En);
    repeat (apply elem_of_cons in Ep as [-> | Ep]);
    try (now apply elem_of_nil in Ep);
    vm_compute; reflexivity.
Qed.

Lemma contribution_In r g t :
  contribution r g = Some t -> In t (group_tiers g) /\ tier_cond t r = true.
Proof.
  unfold contribution. destruct (group_applies g r); [| discriminate].
  intros H. now apply find_some in H.
Qed.

Lemma value_fold r gs : forall s n,
  Forall small_group gs ->
  value s = of_Z n -> 0 <= n -> n + 4 * Z.of_nat (length gs) <= 20 ->
  value (foldl (apply r) s gs)
  = of_Z (n + foldr Z.add 0 (tier_points <$> omap (contribution r) gs)).
Proof.
  induction gs as [| g gs IH]; intros s n Hsmall Hs Hn Hbound.
  - cbn. now rewrite Z.add_0_r.
  - inversion Hsmall as [| ? ? Hg Hgs]; subst.
    cbn [length] in Hbound. cbn [foldl omap list_omap].
    unfold apply at 2.
    destruct (contribution r g) as [t |] eqn:Ht.
    + apply contribution_In in Ht as [Hin _].
      unfold small_group in Hg. rewrite Forall_forall in Hg.
      apply list_elem_of_In, Hg in Hin.
      rewrite (IH _ (n + tier_points t)); [| assumption | | lia | lia].
      * rewrite fmap_cons. cbn [foldr]. f_equal; lia.
      * cbn. rewrite Hs. apply of_Z_add_small; lia.
    + now rewrite (IH s n) by (assumption || lia).
Qed.

Lemma table_small : Forall small_group table.
Proof.
  unfold table, small_group; repeat constructor; cbn; lia.
Qed.

Lemma analyzePotential_table r :
  value (analyzePotential r) = of_Z (points r) /\
  factors (analyzePotential r) = texts r.
Proof.
  rewrite analyzePotential_fold. split.
  - rewrite (value_fold r table _ 0); [reflexivity | apply table_small | reflexivity | lia |].
    cbn; lia.
  - now rewrite factors_fold.
Qed.

Lemma points_by_group r gs :
  foldr Z.add 0 (tier_points <$> omap (contribution r) gs)
  = foldr Z.add 0 (group_points r <$> gs).
Proof.
  induction gs as [| g gs IH]; [reflexivity |].
  rewrite fmap_cons; cbn [omap list_omap foldr]. unfold group_points at 1.
  destruct (contribution r g); cbn [from_option];
    [rewrite fmap_cons; cbn [foldr] |]; lia.
Qed.

Lemma group_points_range r g m :
  0 <= m -> Forall (fun t => 0 <= tier_points t <= m) (group_tiers g) ->
  0 <= group_points r g <= m.
Proof.
  intros Hm Hall. unfold group_points.
  destruct (contribution r g) as [t |] eqn:Ht; cbn; [| lia].
  apply contribution_In in Ht as [Hin _].
  rewrite Forall_forall in Hall. now apply Hall, list_elem_of_In.
Qed.

Lemma points_range r : 0 <= points r <= 17.
Proof.
  unfold points, triggered. rewrite points_by_group.
  unfold table. rewrite !fmap_cons, fmap_nil. cbn [foldr].
  pose proof (group_points_range r cap_group 4) as H1.
  pose proof (group_points_range r ratio_group 4) as H2.
  pose proof (group_points_range r momentum_group 4) as H3.
  pose proof (group_points_range r supply_group 3) as H4.
  pose proof (group_points_range r bonus_group 2) as H5.
  assert (0 <= group_points r cap_group <= 4)
    by (apply H1; [lia | repeat constructor; cbn; lia]).
  assert (0 <= group_points r ratio_group <= 4)
    by (apply H2; [lia | repeat constructor; cbn; lia]).
  assert (0 <= group_points r momentum_group <= 4)
    by (apply H3; [lia | repeat constructor; cbn; lia]).
  assert (0 <= group_points r supply_group <= 3)
    by (apply H4; [lia | repeat constructor; cbn; lia]).
  assert (0 <= group_points r bonus_group <= 2)
    by (apply H5; [lia | repeat constructor; cbn; lia]).
  lia.
Qed.

Lemma contribution_fires r g :
  fires r g = match contribution r g with Some _ => true | None => false end.
Proof.
  unfold fires, contribution. destruct (group_applies g r); [cbn | reflexivity].
  induction (group_tiers g) as [| t ts IH]; [reflexivity |].
  cbn. destruct (tier_cond t r); [reflexivity | exact IH].
Qed.

Lemma triggered_fired r gs :
  length (omap (contribution r) gs) = length (List.filter (fires r) gs).
Proof.
  induction gs as [| g gs IH]; [reflexivity |].
  cbn [omap list_omap List.filter]. rewrite contribution_fires.
  destruct (contribution r g); cbn; now rewrite IH.
Qed.

Lemma fired_groups_le r : (fired_groups r <= 5)%nat.
Proof.
  unfold fired_groups. etransitivity; [apply List.filter_length_le |].
  reflexivity.
Qed.

Lemma of_Z_between n :
  0 <= n <= 17 ->
  lessThan (of_Z n) 0%float = false /\ greaterThan (of_Z n) 17%float = false.
Proof.
  intros Hn.
  assert (En : n ∈ seqZ 0 18) by (apply elem_of_seqZ; lia).
  vm_compute in En.
  repeat (apply elem_of_cons in En as [-> | En]); try (split; reflexivity).
  now apply elem_of_nil in En.
Qed.

Lemma score_integer r :
  exists n : Z, 0 <= n <= 17 /\ value (analyzePotential r) = of_Z n.
Proof.
  exists (points r). split; [apply points_range | apply analyzePotential_table].
Qed.

Lemma stated_table_agrees r :
  bothPresent r = bothSupplied r ->
  points r = stated_points r /\ texts r = stated_texts r.
Proof.
  intros Hg.
  assert (Hc : contribution r stated_supply_group = contribution r supply_group).
  { unfold contribution; cbn [group_applies group_tiers stated_supply_group supply_group].
    now rewrite Hg. }
  unfold points, texts, triggered, stated_points, stated_texts, table, stated_table.
  cbn [omap list_omap]. rewrite Hc. split; reflexivity.
Qed.

(** C1, as amended. The scorer implements the rule table with the supply
    group applying when both supply fields are truthy: in each group the
    first matching tier alone contributes, the value is the sum of the
    contributions and the factors are their texts in table order; this
    is the table as the specification words it on every record where
    "both present" and "both truthy" agree; the record of Scenario A
    scores exactly 15. *)
Theorem analyzePotential_rule_table :
  (forall r : Crypto,
     value (analyzePotential r) = of_Z (points r) /\
     factors (analyzePotential r) = texts r) /\
  (forall r : Crypto,
     bothPresent r = bothSupplied r ->
     value (analyzePotential r) = of_Z (stated_points r) /\
     factors (analyzePotential r) = stated_texts r) /\
  analyzePotential scenarioA =
    {| value := 15%float;
       factors := [ "Micro market cap with massive growth potential";
                    "Exceptional trading volume relative to market cap";
                    "Strong positive price momentum (>15%)";
                    "Very large room for supply growth" ] |}.
Proof.
  split; [exact analyzePotential_table |].
  split; [| vm_compute; reflexivity].
  intros r Hg. destruct (stated_table_agrees r Hg) as [<- <-].
  apply analyzePotential_table.
Qed.

(** C1 as stated fails: with [total_supply] 100 and [circulating_supply]
    0 the table as worded gives the supply group's 3 points, 15 in all,
    and the scorer returns 12. *)
Lemma rule_table_as_stated_differs :
  stated_points zeroCirculating = 15 /\
  stated_texts zeroCirculating =
    [ "Micro market cap with massive growth potential";
      "Exceptional trading volume relative to market cap";
      "Strong positive price momentum (>15%)";
      "Very large room for supply growth" ] /\
  analyzePotential zeroCirculating =
    {| value := 12%float;
       factors := [ "Micro market cap with massive growth potential";
                    "Exceptional trading volume relative to market cap";
                    "Strong positive price momentum (>15%)" ] |}.
Proof. repeat split; vm_compute; reflexivity. Qed.

(** C3, as amended. The score value is an integer between 0 and 17 (it
    is neither below 0 nor above 17), there are as many factors as groups
    that fire, the supply group firing only when both supply fields are
    truthy (at most 5), and a record firing no group gets value 0 and no
    factor. *)
Theorem analyzePotential_range (r : Crypto) :
  (exists n : Z, 0 <= n <= 17 /\ value (analyzePotential r) = of_Z n) /\
  lessThan (value (analyzePotential r)) 0%float = false /\
  greaterThan (value (analyzePotential r)) 17%float = false /\
  length (factors (analyzePotential r)) = fired_groups r /\
  (fired_groups r <= 5)%nat /\
  (fired_groups r = 0%nat ->
   analyzePotential r = {| value := 0%float; factors := [] |}).
Proof.
  destruct (analyzePotential_table r) as [Hv Hf].
  assert (Hlen : length (factors (analyzePotential r)) = fired_groups r).
  { rewrite Hf. unfold texts, triggered, fired_groups.
    rewrite length_fmap. apply triggered_fired. }
  split; [apply score_integer |].
  destruct (score_integer r) as (n & Hn & En).
  destruct (of_Z_between n Hn) as [Hlo Hhi]. rewrite <- En in Hlo, Hhi.
  repeat split.
  - exact Hlo.
  - exact Hhi.
  - exact Hlen.
  - apply fired_groups_le.
  - intros Hzero. rewrite Hzero in Hlen.
    assert (Ht : triggered r = []).
    { apply length_zero_iff_nil. unfold fired_groups in Hzero.
      unfold triggered. now rewrite triggered_fired. }
    unfold points, texts in *. rewrite Ht in Hv, Hf. cbn in Hv, Hf.
    destruct (analyzePotential r) as [v fs]; cbn in *. now subst.
Qed.

(** C3 as stated fails: with [total_supply] 100 and [circulating_supply]
    0 both supply fields are present and the ratio 0 is below 0.3, so four
    rule groups are triggered as the specification counts them, yet the
    scorer lists three factors. *)
Lemma factor_count_below_stated_groups :
  total_supply zeroCirculating = Num 100%float /\
  circulating_supply zeroCirculating = Num 0%float /\
  stated_fired_groups zeroCirculating = 4%nat /\
  fired_groups zeroCirculating = 3%nat /\
  length (factors (analyzePotential zeroCirculating)) = 3%nat.
Proof. repeat split; vm_compute; reflexivity. Qed.

End Scorer.

(** ** The ranker *)

Section Ranker.
Import Binary64 Binary64Facts.

Lemma of_Z_not_NaN n : 0 <= n <= 17 -> isNaN (of_Z n) = false.
Proof.
  intros Hn.
  assert (En : n ∈ seqZ 0 18) by (apply elem_of_seqZ; lia).
  vm_compute in En.
  repeat (apply elem_of_cons in En as [-> | En]); try reflexivity.
  now apply elem_of_nil in En.
Qed.

Lemma score_not_NaN r : isNaN (value (analyzePotential r)) = false.
Proof.
  destruct (score_integer r) as (n & Hn & ->).
  now apply of_Z_not_NaN.
Qed.

Lemma sortable_score l : sortable PotentialScore l.
Proof. apply Forall_forall. intros r _. apply score_not_NaN. Qed.

Lemma greaterThan_outcome v :
  greaterThan v 0%float = match outcome v with Gt => true | _ => false end.
Proof.
  rewrite outcome_sign. unfold greaterThan. rewrite FloatAxioms.ltb_spec.
  change (Prim2SF 0%float) with (S754_zero false).
  destruct (Prim2SF v) as [s | [|] | | [|] m e]; reflexivity.
Qed.

(** What the sort reads from a difference of two comparable keys. *)
Lemma SortCompare_subtract x y :
  isNaN x = false -> isNaN y = false ->
  greaterThan (if isNaN (subtract x y) then 0%float else subtract x y) 0%float
  = (code y <? code x).
Proof.
  intros Hx Hy. pose proof (subtract_outcome x y Hx Hy) as Hout.
  destruct (isNaN (subtract x y)) eqn:Hnan.
  - rewrite outcome_sign, (isNaN_true _ Hnan) in Hout. cbn in Hout.
    symmetry in Hout. apply Z.compare_eq_iff in Hout. rewrite Hout.
    rewrite Z.ltb_irrefl. reflexivity.
  - rewrite greaterThan_outcome, Hout, Z.ltb_antisym, Z.leb_compare.
    now destruct (code x ?= code y).
Qed.

Lemma compareFn_subtract f d a b :
  compareFn f d a b =
  match d with
  | Desc => subtract (sortKey f b) (sortKey f a)
  | Asc => subtract (sortKey f a) (sortKey f b)
  end.
Proof. destruct f, d; reflexivity. Qed.

Lemma compareFn_consistent f d a b :
  isNaN (sortKey f a) = false -> isNaN (sortKey f b) = false ->
  greaterThan (SortCompare (compareFn f d) a b) 0%float
  = (dirKey d (sortKey f b) <? dirKey d (sortKey f a)).
Proof.
  intros Ha Hb. unfold SortCompare. rewrite compareFn_subtract.
  destruct d; cbn [dirKey]; rewrite SortCompare_subtract by assumption.
  - destruct (Z.ltb_spec (code (sortKey f a)) (code (sortKey f b))),
      (Z.ltb_spec (- code (sortKey f b)) (- code (sortKey f a))); (reflexivity || lia).
  - reflexivity.
Qed.

Lemma dirKey_inOrder d x y : dirKey d x <= dirKey d y -> inOrder d x y.
Proof.
  intros Hle. unfold inOrder.
  destruct (isNaN x) eqn:Hx.
  { destruct d; [now apply lessThan_NaN_l | now apply lessThan_NaN_r]. }
  destruct (isNaN y) eqn:Hy.
  { destruct d; [now apply lessThan_NaN_r | now apply lessThan_NaN_l]. }
  destruct d; cbn [dirKey] in Hle; unfold greaterThan; fold (lessThan y x);
    rewrite lessThan_code by assumption; apply Z.ltb_ge; lia.
Qed.

Lemma eqb_NaN_r x v : isNaN v = true -> PrimFloat.eqb x v = false.
Proof.
  intros Hv. rewrite FloatAxioms.eqb_spec, (isNaN_true v Hv).
  unfold SFeqb. now destruct (Prim2SF x).
Qed.

Lemma filter_none {A} (p : A -> bool) l :
  (forall a, In a l -> p a = false) -> List.filter p l = [].
Proof.
  induction l as [| x l IH]; intros H; [reflexivity |].
  cbn. rewrite (H x) by now left. apply IH. intros a Ha. apply H. now right.
Qed.

Lemma rank_perm f d l : rank f d l ≡ₚ l.
Proof. apply sort_list_perm. Qed.

Lemma rank_sorted f d l :
  sortable f l ->
  StronglySorted (fun a b => inOrder d (sortKey f a) (sortKey f b)) (rank f d l).
Proof.
  intros Hl.
  apply StronglySorted_weaken
    with (R1 := fun a b => dirKey d (sortKey f a) <= dirKey d (sortKey f b)).
  - intros a b. apply dirKey_inOrder.
  - unfold rank.
    apply (sort_list_sorted _ _ (fun r => isNaN (sortKey f r) = false)); [| exact Hl].
    intros a b. apply compareFn_consistent.
Qed.

Lemma rank_stable f d l v :
  sortable f l ->
  List.filter (fun r => PrimFloat.eqb (sortKey f r) v) (rank f d l)
  = List.filter (fun r => PrimFloat.eqb (sortKey f r) v) l.
Proof.
  intros Hl. destruct (isNaN v) eqn:Hv.
  - rewrite !filter_none; [reflexivity | |]; intros; now apply eqb_NaN_r.
  - assert (Hin : forall l', l' ≡ₚ l ->
      List.filter (fun r => PrimFloat.eqb (sortKey f r) v) l'
      = List.filter (fun r => dirKey d (sortKey f r) =? dirKey d v) l').
    { intros l' Hp. apply List.filter_ext_in. intros r Hr.
      assert (Hg : isNaN (sortKey f r) = false).
      { unfold sortable in Hl. rewrite Forall_forall in Hl.
        apply Hl. rewrite <- Hp. now apply list_elem_of_In. }
      rewrite eqb_code by assumption.
      destruct d; cbn [dirKey]; [| reflexivity].
      destruct (Z.eqb_spec (code (sortKey f r)) (code v)),
        (Z.eqb_spec (- code (sortKey f r)) (- code v)); (reflexivity || lia). }
    rewrite (Hin (rank f d l)) by apply rank_perm.
    rewrite (Hin l) by reflexivity.
    unfold rank.
    apply (sort_list_stable _ (fun r => dirKey d (sortKey f r))
             (fun r => isNaN (sortKey f r) = false)); [| exact Hl].
    intros a b. apply compareFn_consistent.
Qed.

Lemma inOrder_dirKey d x y :
  isNaN x = false -> isNaN y = false -> inOrder d x y -> dirKey d x <= dirKey d y.
Proof.
  intros Hx Hy. unfold inOrder.
  destruct d; cbn [dirKey]; unfold greaterThan; fold (lessThan y x);
    rewrite lessThan_code by assumption; intros H; apply Z.ltb_ge in H; lia.
Qed.

(** The ranked array is the only arrangement of the input that is sorted
    and keeps records of equal key in input order. *)
Lemma rank_unique f d l l' :
  sortable f l -> l' ≡ₚ l ->
  StronglySorted (fun a b => inOrder d (sortKey f a) (sortKey f b)) l' ->
  (forall v : number,
     List.filter (fun r => PrimFloat.eqb (sortKey f r) v) l'
     = List.filter (fun r => PrimFloat.eqb (sortKey f r) v) l) ->
  l' = rank f d l.
Proof.
  intros Hl Hp Hs Hst. unfold rank.
  assert (Hl' : sortable f l') by (unfold sortable; now rewrite Hp).
  apply (sort_list_unique _ (fun r => dirKey d (sortKey f r))
           (fun r => isNaN (sortKey f r) = false)).
  - intros a b. apply compareFn_consistent.
  - exact Hl.
  - eapply StronglySorted_weaken_in; [exact Hl' | | exact Hs].
    cbn. intros a b Ha Hb. now apply inOrder_dirKey.
  - intros k.
    assert (Hnum : forall v l0, sortable f l0 -> isNaN v = false ->
      List.filter (fun r => dirKey d (sortKey f r) =? dirKey d v) l0
      = List.filter (fun r => PrimFloat.eqb (sortKey f r) v) l0).
    { intros v l0 Hl0 Hv. apply List.filter_ext_in. intros r Hr.
      unfold sortable in Hl0. rewrite Forall_forall in Hl0.
      apply list_elem_of_In, Hl0 in Hr. rewrite eqb_code by assumption.
      destruct d; cbn [dirKey]; [| reflexivity].
      destruct (Z.eqb_spec (code (sortKey f r)) (code v)),
        (Z.eqb_spec (- code (sortKey f r)) (- code v)); (reflexivity || lia). }
    destruct (List.filter (fun a => dirKey d (sortKey f a) =? k) l) as [| r0 rest] eqn:Hk.
    + apply filter_none. intros a Ha.
      assert (Hin : In a l) by (apply list_elem_of_In; rewrite <- Hp; now apply list_elem_of_In).
      destruct (dirKey d (sortKey f a) =? k) eqn:Hak; [| reflexivity].
      assert (Hc : In a []) by (rewrite <- Hk; apply filter_In; auto).
      contradiction.
    + rewrite <- Hk.
      assert (Hr0 : In r0 l /\ (dirKey d (sortKey f r0) =? k) = true).
      { apply (filter_In (fun a => dirKey d (sortKey f a) =? k)).
        rewrite Hk. now left. }
      destruct Hr0 as [Hin Hk0]. apply Z.eqb_eq in Hk0. subst k.
      assert (Hv : isNaN (sortKey f r0) = false).
      { unfold sortable in Hl. rewrite Forall_forall in Hl.
        now apply Hl, list_elem_of_In. }
      rewrite (Hnum _ l' Hl' Hv), (Hnum _ l Hl Hv). apply Hst.
Qed.

(** [sortData] allocates one array, the ranked copy, and changes nothing
    else. *)
Lemma sortData_run f d (h : heap) data l :
  h !! data = Some l ->
  sortData f d data h
  = Normal (fresh (dom h), <[fresh (dom h) := rank f d l]> h).
Proof.
  intros Hdata.
  unfold sortData, spread, Array_sort, mbind, js_bind, mret, js_ret, read, alloc, write.
  rewrite Hdata. cbn. rewrite lookup_insert_eq. cbn.
  now rewrite insert_insert_eq.
Qed.

Lemma fresh_heap (h : heap) : h !! fresh (dom h) = None.
Proof. apply not_elem_of_dom, is_fresh. Qed.

Lemma potentialGems_run (h : heap) data l :
  h !! data = Some l ->
  potentialGems data h
  = Normal (fresh (dom h), <[fresh (dom h) := List.filter isPotentialGem l]> h).
Proof.
  intros Hdata.
  unfold potentialGems, Array_filter, mbind, js_bind, read, alloc.
  now rewrite Hdata.
Qed.

Lemma filter_sublist {A} (p : A -> bool) l : List.filter p l `sublist_of` l.
Proof.
  induction l as [| x l IH]; cbn; [constructor |].
  destruct (p x); now constructor.
Qed.

Lemma rank_pair f d a b :
  sortable f [a; b] ->
  PrimFloat.eqb (sortKey f a) (sortKey f b) = true ->
  rank f d [a; b] = [a; b].
Proof.
  intros Hl Heq. inversion Hl as [| ? ? Ha Hl']; subst.
  inversion Hl' as [| ? ? Hb _]; subst.
  unfold rank, sort_list; cbn [foldr insert_sorted].
  rewrite compareFn_consistent by assumption.
  rewrite eqb_code in Heq by assumption. apply Z.eqb_eq in Heq.
  destruct d; cbn [dirKey]; rewrite Heq, Z.ltb_irrefl; reflexivity.
Qed.

(** The sample records ranked by score, highest first. *)
Example rank_sample :
  rank PotentialScore Desc [quiet; scenarioB; scenarioA] = [scenarioA; quiet; scenarioB].
Proof. vm_compute. reflexivity. Qed.

(** C5, as amended. For the score, and for any property none of whose
    values coerces to NaN, [sortData] returns a rearrangement of its input,
    sorted by the key in the requested direction, in which records with
    equal keys keep their input order; two records of equal key stay as
    they were. *)
Theorem sortData_sorted_stable f d (h : heap) data l :
  h !! data = Some l ->
  f = PotentialScore \/ sortable f l ->
  exists out h',
    sortData f d data h = Normal (out, h') /\
    h' !! out = Some (rank f d l) /\
    rank f d l ≡ₚ l /\
    StronglySorted (fun a b => inOrder d (sortKey f a) (sortKey f b)) (rank f d l) /\
    (forall v : number,
       List.filter (fun r => PrimFloat.eqb (sortKey f r) v) (rank f d l)
       = List.filter (fun r => PrimFloat.eqb (sortKey f r) v) l) /\
    (forall a b, l = [a; b] ->
       PrimFloat.eqb (sortKey f a) (sortKey f b) = true -> rank f d l = [a; b]).
Proof.
  intros Hdata Hf.
  assert (Hl : sortable f l) by (destruct Hf as [-> | Hl]; [apply sortable_score | exact Hl]).
  eexists _, _. split; [exact (sortData_run f d h data l Hdata) |].
  split; [apply lookup_insert_eq |].
  split; [apply rank_perm |].
  split; [now apply rank_sorted |].
  split; [intros v; now apply rank_stable |].
  intros a b -> Heq. now apply rank_pair.
Qed.

Lemma sortData_sorted_stable_witness :
  exists out h',
    sortData PotentialScore Desc 1%positive sampleHeap = Normal (out, h') /\
    h' !! out = Some (rank PotentialScore Desc [quiet; scenarioB; scenarioA]) /\
    rank PotentialScore Desc [quiet; scenarioB; scenarioA]
      ≡ₚ [quiet; scenarioB; scenarioA] /\
    StronglySorted
      (fun a b => inOrder Desc (sortKey PotentialScore a) (sortKey PotentialScore b))
      (rank PotentialScore Desc [quiet; scenarioB; scenarioA]) /\
    (forall v : number,
       List.filter (fun r => PrimFloat.eqb (sortKey PotentialScore r) v)
         (rank PotentialScore Desc [quiet; scenarioB; scenarioA])
       = List.filter (fun r => PrimFloat.eqb (sortKey PotentialScore r) v)
           [quiet; scenarioB; scenarioA]) /\
    (forall a b, [quiet; scenarioB; scenarioA] = [a; b] ->
       PrimFloat.eqb (sortKey PotentialScore a) (sortKey PotentialScore b) = true ->
       rank PotentialScore Desc [quiet; scenarioB; scenarioA] = [a; b]).
Proof.
  apply (sortData_sorted_stable PotentialScore Desc sampleHeap 1%positive
           [quiet; scenarioB; scenarioA]).
  - reflexivity.
  - left. reflexivity.
Defined.

(** C5 as stated fails: ranked ascending by [total_supply], a record
    lacking the property compares equal to both its neighbours, so the
    three records stay as they were, 3 before 1. *)
Lemma sortData_missing_key_unsorted :
  rank (Property TotalSupply) Asc [supply3; supplyMissing; supply1]
    = [supply3; supplyMissing; supply1] /\
  greaterThan (sortKey (Property TotalSupply) supply3)
              (sortKey (Property TotalSupply) supply1) = true /\
  exists h',
    sortData (Property TotalSupply) Asc 1%positive
      {[ 1%positive := [supply3; supplyMissing; supply1] ]} = Normal (2%positive, h') /\
    h' !! 2%positive = Some [supply3; supplyMissing; supply1].
Proof.
  split; [vm_compute; reflexivity |].
  split; [vm_compute; reflexivity |].
  eexists. split; [vm_compute; reflexivity |]. vm_compute. reflexivity.
Qed.

(** C6. [sortData] returns a new array, one that was not in the heap
    before and now holds a rearrangement of the input's records (as many
    as the input has), and leaves its input array, and every other array,
    as it was. *)
Theorem sortData_input_unmodified f d (h : heap) data l :
  h !! data = Some l ->
  exists out h' ranked,
    sortData f d data h = Normal (out, h') /\
    h !! out = None /\ out <> data /\
    h' !! out = Some ranked /\ ranked ≡ₚ l /\ length ranked = length l /\
    h' = <[out := ranked]> h /\
    h' !! data = Some l /\
    (forall a, a <> out -> h' !! a = h !! a).
Proof.
  intros Hdata. pose proof (fresh_heap h) as Hfresh.
  assert (Hne : fresh (dom h) <> data) by congruence.
  exists (fresh (dom h)), (<[fresh (dom h) := rank f d l]> h), (rank f d l).
  split; [exact (sortData_run f d h data l Hdata) |].
  repeat split; try assumption.
  - apply lookup_insert_eq.
  - apply rank_perm.
  - apply Permutation_length, rank_perm.
  - now rewrite lookup_insert_ne.
  - intros a Ha. now rewrite lookup_insert_ne.
Qed.

Lemma sortData_input_unmodified_witness :
  exists out h' ranked,
    sortData PotentialScore Desc 1%positive sampleHeap = Normal (out, h') /\
    sampleHeap !! out = None /\ out <> 1%positive /\
    h' !! out = Some ranked /\ ranked ≡ₚ [quiet; scenarioB; scenarioA] /\
    length ranked = length [quiet; scenarioB; scenarioA] /\
    h' = <[out := ranked]> sampleHeap /\
    h' !! 1%positive = Some [quiet; scenarioB; scenarioA] /\
    (forall a, a <> out -> h' !! a = sampleHeap !! a).
Proof.
  apply (sortData_input_unmodified PotentialScore Desc sampleHeap 1%positive
           [quiet; scenarioB; scenarioA]).
  reflexivity.
Defined.

End Ranker.

(** ** The candidate filter *)

Section Filter.
Import Binary64 Binary64Facts.

Lemma isPotentialGem_conditions r :
  isPotentialGem r = true <->
  greaterThan (ToNumber (market_cap r)) 0%float = true /\
  lessThan (divide (ToNumber (market_cap r)) 1000000%float) 100%float = true /\
  greaterThan (divide (ToNumber (total_volume r)) (ToNumber (market_cap r)))
    0.1%float = true.
Proof.
  unfold isPotentialGem; cbv zeta. rewrite !andb_true_iff. tauto.
Qed.

(** C2. The filter returns a new array, leaves every existing array as it
    was, and the new array holds, in input order, exactly the records
    meeting the three conditions; a dropped record fails one of them. *)
Theorem potentialGems_filters (h : heap) data l :
  h !! data = Some l ->
  exists out h' gems,
    potentialGems data h = Normal (out, h') /\
    h !! out = None /\ h' = <[out := gems]> h /\ h' !! data = Some l /\
    gems `sublist_of` l /\
    (forall r, In r gems <->
       In r l /\
       greaterThan (ToNumber (market_cap r)) 0%float = true /\
       lessThan (divide (ToNumber (market_cap r)) 1000000%float) 100%float = true /\
       greaterThan (divide (ToNumber (total_volume r)) (ToNumber (market_cap r)))
         0.1%float = true) /\
    (forall r, In r l -> ~ In r gems ->
       greaterThan (ToNumber (market_cap r)) 0%float = false \/
       lessThan (divide (ToNumber (market_cap r)) 1000000%float) 100%float = false \/
       greaterThan (divide (ToNumber (total_volume r)) (ToNumber (market_cap r)))
         0.1%float = false).
Proof.
  intros Hdata. pose proof (fresh_heap h) as Hfresh.
  exists (fresh (dom h)), (<[fresh (dom h) := List.filter isPotentialGem l]> h),
    (List.filter isPotentialGem l).
  split; [now apply potentialGems_run |].
  split; [exact Hfresh |]. split; [reflexivity |].
  split; [rewrite lookup_insert_ne; [exact Hdata | congruence] |].
  split; [apply filter_sublist |].
  split.
  - intros r. rewrite filter_In, isPotentialGem_conditions. reflexivity.
  - intros r Hin Hout. rewrite filter_In in Hout.
    destruct (isPotentialGem r) eqn:Hgem; [tauto |].
    unfold isPotentialGem in Hgem; cbv zeta in Hgem.
    rewrite !andb_false_iff in Hgem. tauto.
Qed.

Lemma potentialGems_filters_witness :
  exists out h' gems,
    potentialGems 1%positive sampleHeap = Normal (out, h') /\
    sampleHeap !! out = None /\ h' = <[out := gems]> sampleHeap /\
    h' !! 1%positive = Some [quiet; scenarioB; scenarioA] /\
    gems `sublist_of` [quiet; scenarioB; scenarioA] /\
    (forall r, In r gems <->
       In r [quiet; scenarioB; scenarioA] /\
       greaterThan (ToNumber (market_cap r)) 0%float = true /\
       lessThan (divide (ToNumber (market_cap r)) 1000000%float) 100%float = true /\
       greaterThan (divide (ToNumber (total_volume r)) (ToNumber (market_cap r)))
         0.1%float = true) /\
    (forall r, In r [quiet; scenarioB; scenarioA] -> ~ In r gems ->
       greaterThan (ToNumber (market_cap r)) 0%float = false \/
       lessThan (divide (ToNumber (market_cap r)) 1000000%float) 100%float = false \/
       greaterThan (divide (ToNumber (total_volume r)) (ToNumber (market_cap r)))
         0.1%float = false).
Proof.
  apply (potentialGems_filters sampleHeap 1%positive [quiet; scenarioB; scenarioA]).
  reflexivity.
Defined.

(** Scenario B: a volume/cap ratio of 0.025 fails the filter. *)
Example scenarioB_excluded : isPotentialGem scenarioB = false.
Proof. vm_compute. reflexivity. Qed.

(** Scenario A passes it. *)
Example scenarioA_included : isPotentialGem scenarioA = true.
Proof. vm_compute. reflexivity. Qed.

(** Scenario C: a market cap of 0 fails it whatever the other fields. *)
Lemma zero_cap_excluded r : market_cap r = Num 0%float -> isPotentialGem r = false.
Proof.
  intros H. unfold isPotentialGem; cbv zeta. rewrite H.
  apply andb_false_intro2. reflexivity.
Qed.

Lemma screened_number v :
  screened v -> isNaN (ToNumber v) = true \/ ToNumber v = 0%float.
Proof.
  destruct v as [| | [|] | x]; cbn; intros H; try contradiction; auto.
Qed.

Lemma isPotentialGem_screened r :
  screened (market_cap r) \/ screened (total_volume r) -> isPotentialGem r = false.
Proof.
  unfold isPotentialGem; cbv zeta. intros [H | H]; apply screened_number in H.
  - apply andb_false_intro2. unfold greaterThan.
    destruct H as [H | ->]; [now apply lessThan_NaN_r | reflexivity].
  - apply andb_false_intro1, andb_false_intro2.
    destruct H as [H | ->].
    + unfold greaterThan. apply lessThan_NaN_r. now apply divide_NaN_l.
    + now apply divide_zero_l.
Qed.

(** C8, as amended. A record whose market cap or volume is missing,
    [null], [false] or NaN fails the predicate, which never throws, and so
    never reaches the filtered array. *)
Theorem potentialGems_screens (h : heap) data l :
  h !! data = Some l ->
  (forall r, screened (market_cap r) \/ screened (total_volume r) ->
     isPotentialGem r = false) /\
  exists out h' gems,
    potentialGems data h = Normal (out, h') /\
    h' !! out = Some gems /\
    forall r, In r gems ->
      ~ screened (market_cap r) /\ ~ screened (total_volume r).
Proof.
  intros Hdata. split; [exact isPotentialGem_screened |].
  eexists _, _, _. split; [exact (potentialGems_run h data l Hdata) |].
  split; [apply lookup_insert_eq |].
  intros r Hr. apply filter_In in Hr as [_ Hgem].
  split; intros Hs; rewrite isPotentialGem_screened in Hgem by tauto; discriminate.
Qed.

Lemma potentialGems_screens_witness :
  (forall r, screened (market_cap r) \/ screened (total_volume r) ->
     isPotentialGem r = false) /\
  exists out h' gems,
    potentialGems 1%positive sampleHeap = Normal (out, h') /\
    h' !! out = Some gems /\
    forall r, In r gems ->
      ~ screened (market_cap r) /\ ~ screened (total_volume r).
Proof.
  apply (potentialGems_screens sampleHeap 1%positive [quiet; scenarioB; scenarioA]).
  reflexivity.
Defined.

(** C8 as stated fails: a boolean volume is not a number, yet [true]
    coerces to 1 and the record passes the filter. *)
Lemma potentialGems_keeps_boolean_volume :
  total_volume booleanVolume = Bool true /\
  isPotentialGem booleanVolume = true /\
  exists h',
    potentialGems 1%positive {[ 1%positive := [scenarioB; booleanVolume] ]}
      = Normal (2%positive, h') /\
    h' !! 2%positive = Some [booleanVolume].
Proof.
  split; [reflexivity |]. split; [vm_compute; reflexivity |].
  eexists. split; vm_compute; reflexivity.
Qed.

End Filter.

(** ** Guards of the supply group and of the activity bonus *)

Ltac each_group H :=
  unfold RuleTable.table in H; cbn [In] in H;
  repeat (destruct H as [<- | H]); [.. | contradiction].

Ltac each_tier H :=
  apply contribution_In in H as [H ?];
  cbn [RuleTable.group_tiers] in H; cbn [In] in H;
  repeat (destruct H as [<- | H]); try contradiction.

Section ScorerGuards.
Import RuleTable Binary64 Binary64Facts.

(** A factor is listed exactly when a group of the table contributes it. *)
Lemma factor_listed r t :
  In t (factors (analyzePotential r)) <->
  exists g tier, In g table /\ contribution r g = Some tier /\ tier_text tier = t.
Proof.
  destruct (analyzePotential_table r) as [_ ->]. unfold texts, triggered.
  rewrite <- list_elem_of_In, list_elem_of_fmap. split.
  - intros (tier & -> & Htier). apply list_elem_of_omap in Htier as (g & Hg & Hc).
    exists g, tier. now rewrite <- list_elem_of_In.
  - intros (g & tier & Hg & Hc & <-). exists tier. split; [reflexivity |].
    apply list_elem_of_omap. exists g. now rewrite list_elem_of_In.
Qed.

(** The contribution of a group whose first tier matches. *)
Lemma contribution_first r g t ts :
  group_applies g r = true -> group_tiers g = t :: ts -> tier_cond t r = true ->
  contribution r g = Some t.
Proof.
  intros Ha Hts Hc. unfold contribution. rewrite Ha, Hts. cbn. now rewrite Hc.
Qed.

Lemma points_groups r :
  points r = group_points r cap_group + group_points r ratio_group
             + group_points r momentum_group + group_points r supply_group
             + group_points r bonus_group.
Proof.
  unfold points, triggered. rewrite points_by_group.
  unfold table. rewrite !fmap_cons, fmap_nil. cbn [foldr]. lia.
Qed.

Lemma group_points_nonneg r g :
  In g table -> 0 <= group_points r g.
Proof.
  intros Hg. apply (group_points_range r g 4); [lia |].
  pose proof table_small as Hs. rewrite Forall_forall in Hs.
  apply Hs. now apply list_elem_of_In.
Qed.

(** C10. With a positive market cap, volume above market cap puts the
    volume/cap ratio above 0.5: whenever the bonus factor is listed, so is
    the top ratio factor, and the score is at least 6. *)
Theorem bonus_implies_top_ratio (r : Crypto) :
  greaterThan (ToNumber (market_cap r)) 0%float = true ->
  (greaterThan (ToNumber (total_volume r)) (ToNumber (market_cap r)) = true ->
   greaterThan (divide (ToNumber (total_volume r)) (ToNumber (market_cap r)))
     0.5%float = true) /\
  (In "Extremely high trading activity" (factors (analyzePotential r)) ->
   In "Exceptional trading volume relative to market cap"
     (factors (analyzePotential r)) /\
   exists n : Z, 6 <= n <= 17 /\ value (analyzePotential r) = of_Z n).
Proof.
  intros Hcap. split; [now apply divide_gt_half |].
  intros Hbonus. apply factor_listed in Hbonus as (g & tier & Hg & Hc & Htext).
  assert (Hb : contribution r bonus_group = Some tier /\
               greaterThan (ToNumber (total_volume r)) (ToNumber (market_cap r)) = true).
  { each_group Hg; pose proof Hc as Hc'; each_tier Hc'; try discriminate Htext.
    split; assumption. }
  destruct Hb as [Hb Hvol].
  assert (Hratio : contribution r ratio_group
                   = Some (hd tier (group_tiers ratio_group))).
  { eapply contribution_first; [reflexivity | reflexivity |].
    cbn. unfold volumeCapRatio. now apply divide_gt_half. }
  split.
  - apply factor_listed. eexists _, _. split; [| split; [exact Hratio | reflexivity]].
    unfold table; cbn; auto.
  - exists (points r). split; [| apply analyzePotential_table].
    split; [| apply points_range].
    rewrite points_groups.
    pose proof (group_points_nonneg r cap_group ltac:(unfold table; cbn; auto)).
    pose proof (group_points_nonneg r momentum_group ltac:(unfold table; cbn; auto)).
    pose proof (group_points_nonneg r supply_group ltac:(unfold table; cbn; auto)).
    assert (group_points r ratio_group = 4)
      by (unfold group_points; now rewrite Hratio).
    assert (group_points r bonus_group = 2).
    { unfold group_points; rewrite Hb. each_tier Hb. reflexivity. }
    lia.
Qed.

Lemma bonus_implies_top_ratio_witness :
  (greaterThan (ToNumber (total_volume hotGem)) (ToNumber (market_cap hotGem)) = true ->
   greaterThan (divide (ToNumber (total_volume hotGem)) (ToNumber (market_cap hotGem)))
     0.5%float = true) /\
  (In "Extremely high trading activity" (factors (analyzePotential hotGem)) ->
   In "Exceptional trading volume relative to market cap"
     (factors (analyzePotential hotGem)) /\
   exists n : Z, 6 <= n <= 17 /\ value (analyzePotential hotGem) = of_Z n).
Proof.
  apply (bonus_implies_top_ratio hotGem). reflexivity.
Defined.

End ScorerGuards.

(** ** The supply group *)

Section SupplyGroup.
Import RuleTable Binary64 Binary64Facts.

Lemma ToBoolean_truthy v : ToBoolean v = true <-> truthy v.
Proof.
  destruct v as [| | b | x]; cbn; try (split; [discriminate | contradiction]).
  - reflexivity.
  - unfold is_zero, PrimFloat.is_zero.
    rewrite negb_true_iff, orb_false_iff. reflexivity.
Qed.

Lemma supply_contribution r :
  contribution r supply_group =
  if bothSupplied r then
    if lessThan (supplyRatio r) 0.3%float then
      Some {| tier_cond := fun r => lessThan (supplyRatio r) 0.3%float;
              tier_points := 3; tier_text := "Very large room for supply growth" |}
    else if lessThan (supplyRatio r) 0.5%float then
      Some {| tier_cond := fun r => lessThan (supplyRatio r) 0.5%float;
              tier_points := 2; tier_text := "Significant room for supply growth" |}
    else None
  else None.
Proof.
  unfold contribution; cbn [group_applies supply_group group_tiers List.find tier_cond].
  reflexivity.
Qed.

Lemma supply_factor r t :
  t = "Very large room for supply growth"
  \/ t = "Significant room for supply growth" ->
  In t (factors (analyzePotential r)) <->
  exists tier, contribution r supply_group = Some tier /\ tier_text tier = t.
Proof.
  intros Ht. rewrite factor_listed. split.
  - intros (g & tier & Hg & Hc & Htext). exists tier. split; [| exact Htext].
    each_group Hg; try exact Hc; pose proof Hc as Hc'; each_tier Hc';
      destruct Ht as [-> | ->]; discriminate Htext.
  - intros (tier & Hc & Htext). exists supply_group, tier.
    split; [unfold table; cbn; auto | auto].
Qed.

(** C4, as amended. The supply group contributes exactly when both supply
    fields are truthy (present, and neither zero, NaN nor [false]) and the
    ratio is below 0.5. Its [if] statement adds 3 to the value and the
    first factor when the ratio is below 0.3, else 2 and the second factor
    when it is below 0.5, and otherwise leaves the score as it was; the
    score of the record exceeds the score of the same record without
    supply fields by exactly these points. With a field absent or a zero
    denominator the group contributes nothing and adds no factor. *)
Theorem supply_group_guard (r : Crypto) :
  (In "Very large room for supply growth" (factors (analyzePotential r)) <->
   bothSupplied r = true /\ lessThan (supplyRatio r) 0.3%float = true) /\
  (In "Significant room for supply growth" (factors (analyzePotential r)) <->
   bothSupplied r = true /\ lessThan (supplyRatio r) 0.3%float = false /\
   lessThan (supplyRatio r) 0.5%float = true) /\
  (forall s : Score,
     supplyRule r s =
     if bothSupplied r then
       if lessThan (supplyRatio r) 0.3%float then
         {| value := add (value s) 3%float;
            factors := factors s ++ ["Very large room for supply growth"] |}
       else if lessThan (supplyRatio r) 0.5%float then
         {| value := add (value s) 2%float;
            factors := factors s ++ ["Significant room for supply growth"] |}
       else s
     else s) /\
  (exists n : Z,
     0 <= n <= 14 /\
     value (analyzePotential (withoutSupply r)) = of_Z n /\
     value (analyzePotential r) =
       of_Z (n + (if bothSupplied r then
                    if lessThan (supplyRatio r) 0.3%float then 3
                    else if lessThan (supplyRatio r) 0.5%float then 2 else 0
                  else 0))) /\
  (bothSupplied r = true <->
   truthy (total_supply r) /\ truthy (circulating_supply r)) /\
  (total_supply r = Undefined \/ total_supply r = Null \/
   circulating_supply r = Undefined \/ circulating_supply r = Null \/
   is_zero (ToNumber (total_supply r)) = true ->
   bothSupplied r = false /\ forall s, supplyRule r s = s).
Proof.
  split; [| split; [| split; [| split; [| split]]]].
  - rewrite supply_factor by now left. rewrite supply_contribution. split.
    + intros (tier & Hc & Htext).
      destruct (bothSupplied r); [| discriminate].
      destruct (lessThan (supplyRatio r) 0.3%float); [now split |].
      destruct (lessThan (supplyRatio r) 0.5%float); [| discriminate].
      injection Hc as <-. discriminate Htext.
    + intros [-> ->]. eexists. split; reflexivity.
  - rewrite supply_factor by now right. rewrite supply_contribution. split.
    + intros (tier & Hc & Htext).
      destruct (bothSupplied r); [| discriminate].
      destruct (lessThan (supplyRatio r) 0.3%float).
      { injection Hc as <-. discriminate Htext. }
      destruct (lessThan (supplyRatio r) 0.5%float); [now repeat split | discriminate].
    + intros (-> & -> & ->). eexists. split; reflexivity.
  - intros s. unfold supplyRule, bothSupplied, supplyRatio, bump. cbv zeta.
    destruct (ToBoolean (total_supply r) && ToBoolean (circulating_supply r));
      [| reflexivity].
    destruct (lessThan _ 0.3%float); [reflexivity |].
    destruct (lessThan _ 0.5%float); reflexivity.
  - exists (points (withoutSupply r)).
    destruct (analyzePotential_table r) as [Hv _].
    destruct (analyzePotential_table (withoutSupply r)) as [Hv' _].
    assert (Hsame : points r = points (withoutSupply r) + group_points r supply_group).
    { rewrite !points_groups.
      change (group_points (withoutSupply r) cap_group) with (group_points r cap_group).
      change (group_points (withoutSupply r) ratio_group)
        with (group_points r ratio_group).
      change (group_points (withoutSupply r) momentum_group)
        with (group_points r momentum_group).
      change (group_points (withoutSupply r) bonus_group)
        with (group_points r bonus_group).
      change (group_points (withoutSupply r) supply_group) with 0. lia. }
    assert (Hsupply : group_points r supply_group =
              if bothSupplied r then
                if lessThan (supplyRatio r) 0.3%float then 3
                else if lessThan (supplyRatio r) 0.5%float then 2 else 0
              else 0).
    { unfold group_points. rewrite supply_contribution.
      destruct (bothSupplied r); [| reflexivity].
      destruct (lessThan (supplyRatio r) 0.3%float); [reflexivity |].
      destruct (lessThan (supplyRatio r) 0.5%float); reflexivity. }
    split; [| split; [exact Hv' | now rewrite Hv, Hsame, Hsupply]].
    rewrite points_groups.
    change (group_points (withoutSupply r) supply_group) with 0.
    assert (0 <= group_points (withoutSupply r) cap_group <= 4)
      by (apply group_points_range; [lia | repeat constructor; cbn; lia]).
    assert (0 <= group_points (withoutSupply r) ratio_group <= 4)
      by (apply group_points_range; [lia | repeat constructor; cbn; lia]).
    assert (0 <= group_points (withoutSupply r) momentum_group <= 4)
      by (apply group_points_range; [lia | repeat constructor; cbn; lia]).
    assert (0 <= group_points (withoutSupply r) bonus_group <= 2)
      by (apply group_points_range; [lia | repeat constructor; cbn; lia]).
    lia.
  - unfold bothSupplied. rewrite andb_true_iff, !ToBoolean_truthy. reflexivity.
  - intros H.
    assert (Hb : bothSupplied r = false).
    { unfold bothSupplied.
      destruct H as [-> | [-> | [-> | [-> | H]]]]; try reflexivity;
        try apply andb_false_r.
      apply andb_false_intro1.
      destruct (total_supply r) as [| | [|] | x]; try reflexivity; try discriminate H.
      cbn in *. unfold is_zero in *. now rewrite H. }
    split; [exact Hb |]. intros s. rewrite supplyRule_table.
    unfold apply. rewrite supply_contribution, Hb. reflexivity.
Qed.

(** C4 as stated fails: with [total_supply] 100 and [circulating_supply]
    0 both fields are present, the denominator is non-zero and the ratio
    0 is below 0.3, yet the group contributes nothing. *)
Lemma supply_group_skips_zero_circulating :
  total_supply zeroCirculating = Num 100%float /\
  circulating_supply zeroCirculating = Num 0%float /\
  lessThan (supplyRatio zeroCirculating) 0.3%float = true /\
  supplyRule zeroCirculating {| value := 0%float; factors := [] |}
    = {| value := 0%float; factors := [] |} /\
  analyzePotential zeroCirculating =
    {| value := 12%float;
       factors := [ "Micro market cap with massive growth potential";
                    "Exceptional trading volume relative to market cap";
                    "Strong positive price momentum (>15%)" ] |}.
Proof. repeat split; vm_compute; reflexivity. Qed.

End SupplyGroup.

(** ** The narrative generator *)

Section Narrator.
Import RuleTable Narrative.

Lemma append_assoc (a b c : string) : ((a ++ b) ++ c = a ++ (b ++ c))%string.
Proof.
  induction a as [| x a IH]; [reflexivity |].
  change (String x ((a ++ b) ++ c) = String x (a ++ (b ++ c)))%string.
  now rewrite IH.
Qed.

Lemma append_nil_r (a : string) : (a ++ "" = a)%string.
Proof.
  induction a as [| x a IH]; [reflexivity |].
  change (String x (a ++ "") = String x a)%string. now rewrite IH.
Qed.

(** [toFixed] on decimal literals that are not binary fractions. *)
Example toFixed_samples :
  ToFixed.toFixed 2 1.005%float = "1.00" /\
  ToFixed.toFixed 2 8.345%float = "8.35" /\
  ToFixed.toFixed 1 0.05%float = "0.1" /\
  ToFixed.toFixed 2 (-0.001)%float = "-0.00" /\
  ToFixed.toFixed 0 2.5%float = "3" /\
  ToFixed.toFixed 2 1e21%float = "1e+21" /\
  ToFixed.toFixed 2 123456789012345680000000%float = "1.2345678901234569e+23" /\
  ToFixed.toFixed 2 NaN = "NaN".
Proof. repeat split; vm_compute; reflexivity. Qed.

(** C7, as amended. For a record whose 24h change is a number, or is not
    above zero, the sentence is clause 1 followed by clause 2 exactly when
    the volume/cap ratio exceeds 0.3, clause 3 exactly when the 24h change
    exceeds 0, and clause 4 exactly when [total_supply] is truthy and the
    circulating share in percent is neither zero nor NaN, each clause
    followed by one space. *)
Theorem generateAnalysis_clauses (r : Crypto) :
  drawable r -> generateAnalysis r = Normal (sentence (clauses r)).
Proof.
  unfold drawable, generateAnalysis, clauses, sentence, supplyPercent, clause1,
    clause2, clause3, clause4, capInMillions, volumeCapRatio, change24h, supplyRatio.
  cbv zeta.
  destruct (price_change_percentage_24h r) as [| | [|] | x]; cbn [ToNumber]; intros Hr;
    [ | | destruct Hr as [[x Hx] | Hx];
          [discriminate Hx | vm_compute in Hx; discriminate Hx] | | ];
    destruct (greaterThan (divide (ToNumber (total_volume r)) (ToNumber (market_cap r)))
                0.3%float);
    try change (greaterThan NaN 0%float) with false;
    try change (greaterThan 0%float 0%float) with false;
    cbn [call_toFixed];
    try destruct (greaterThan x 0%float);
    destruct (ToBoolean (total_supply r)); cbn [ToBoolean call_toFixed];
    try destruct (is_zero _ || isNaN _); cbn [negb app foldr];
    rewrite ?append_assoc, ?append_nil_r; reflexivity.
Qed.

Lemma generateAnalysis_clauses_witness :
  drawable scenarioA /\
  generateAnalysis scenarioA = Normal (sentence (clauses scenarioA)).
Proof.
  assert (H : drawable scenarioA) by (left; eexists; reflexivity).
  split; [exact H | apply (generateAnalysis_clauses scenarioA H)].
Defined.

(** C7 as stated fails: both supply fields are present, yet with nothing
    in circulation the sentence has no fourth clause. *)
Lemma generateAnalysis_omits_zero_share :
  total_supply zeroCirculating = Num 100%float /\
  circulating_supply zeroCirculating = Num 0%float /\
  generateAnalysis zeroCirculating =
    Normal ("Z shows promise with a market cap of only $5.00M. " ++
            "It has strong trading volume at 60.0% of its market cap. " ++
            "Price is up 20.0% in the last 24h. ").
Proof. repeat split; vm_compute; reflexivity. Qed.

End Narrator.

(** ** Determinism *)

Section Determinism.

(** C9. Equal inputs give equal outputs: the scorer and the narrator are
    functions of the record alone; the arrays the filter and the ranker
    return hold contents fixed by the contents of the input array, in
    whatever heap they run, also when run again after themselves. *)
Theorem pipeline_deterministic :
  (forall r1 r2 : Crypto, r1 = r2 ->
     analyzePotential r1 = analyzePotential r2 /\
     generateAnalysis r1 = generateAnalysis r2) /\
  (forall (h1 h2 : heap) data1 data2 l,
     h1 !! data1 = Some l -> h2 !! data2 = Some l ->
     exists out1 h1' out2 h2' gems,
       potentialGems data1 h1 = Normal (out1, h1') /\
       potentialGems data2 h2 = Normal (out2, h2') /\
       h1' !! out1 = Some gems /\ h2' !! out2 = Some gems) /\
  (forall f d (h1 h2 : heap) data1 data2 l,
     h1 !! data1 = Some l -> h2 !! data2 = Some l ->
     exists out1 h1' out2 h2' ranked,
       sortData f d data1 h1 = Normal (out1, h1') /\
       sortData f d data2 h2 = Normal (out2, h2') /\
       h1' !! out1 = Some ranked /\ h2' !! out2 = Some ranked) /\
  (forall f d (h : heap) data l,
     h !! data = Some l ->
     exists out1 h1 out2 h2 ranked,
       sortData f d data h = Normal (out1, h1) /\
       sortData f d data h1 = Normal (out2, h2) /\
       out1 <> out2 /\
       h2 !! out1 = Some ranked /\ h2 !! out2 = Some ranked).
Proof.
  split; [intros r1 r2 ->; split; reflexivity |].
  split; [| split].
  - intros h1 h2 data1 data2 l H1 H2. eexists _, _, _, _, _.
    split; [exact (potentialGems_run h1 data1 l H1) |].
    split; [exact (potentialGems_run h2 data2 l H2) |].
    split; apply lookup_insert_eq.
  - intros f d h1 h2 data1 data2 l H1 H2. eexists _, _, _, _, _.
    split; [exact (sortData_run f d h1 data1 l H1) |].
    split; [exact (sortData_run f d h2 data2 l H2) |].
    split; apply lookup_insert_eq.
  - intros f d h data l Hdata.
    pose proof (fresh_heap h) as Hfresh.
    set (out1 := fresh (dom h)) in *.
    set (h1 := <[out1 := rank f d l]> h).
    assert (Hdata1 : h1 !! data = Some l).
    { subst h1. rewrite lookup_insert_ne; [exact Hdata | congruence]. }
    pose proof (fresh_heap h1) as Hfresh1.
    assert (Hne : out1 <> fresh (dom h1)).
    { intros Heq. rewrite <- Heq in Hfresh1. subst h1.
      rewrite lookup_insert_eq in Hfresh1. discriminate. }
    exists out1, h1, (fresh (dom h1)), (<[fresh (dom h1) := rank f d l]> h1), (rank f d l).
    split; [exact (sortData_run f d h data l Hdata) |].
    split; [exact (sortData_run f d h1 data l Hdata1) |].
    split; [exact Hne |].
    split; [| apply lookup_insert_eq].
    rewrite lookup_insert_ne by congruence. subst h1. apply lookup_insert_eq.
Qed.

End Determinism.

(** * Further properties of the component *)

(** ** The score and its factors *)

Section ScoreShape.
Import RuleTable Binary64 Binary64Facts.

Lemma triggered_points r t : In t (triggered r) -> 2 <= tier_points t <= 4.
Proof.
  unfold triggered. rewrite <- list_elem_of_In, list_elem_of_omap.
  intros (g & Hg & Hc). apply list_elem_of_In in Hg.
  each_group Hg; each_tier Hc; cbn; lia.
Qed.

Lemma points_per_factor (l : list Tier) :
  (forall t, In t l -> 2 <= tier_points t <= 4) ->
  2 * Z.of_nat (length l) <= foldr Z.add 0 (tier_points <$> l)
  <= 4 * Z.of_nat (length l).
Proof.
  induction l as [| t l IH]; intros H; [cbn; lia |].
  rewrite fmap_cons. cbn [foldr length].
  pose proof (H t (or_introl eq_refl)).
  assert (forall t', In t' l -> 2 <= tier_points t' <= 4) by (intros; apply H; now right).
  specialize (IH ltac:(assumption)). lia.
Qed.

Lemma of_Z_positive n : 1 <= n <= 17 -> greaterThan (of_Z n) 0%float = true.
Proof.
  intros Hn.
  assert (En : n ∈ seqZ 1 17) by (apply elem_of_seqZ; lia).
  vm_compute in En.
  repeat (apply elem_of_cons in En as [-> | En]); try reflexivity.
  now apply elem_of_nil in En.
Qed.

(** X1. Every listed factor is worth 2 to 4 points: the value lies
    between twice and four times the number of factors, and it is 0
    exactly when no factor is listed. *)
Theorem score_counts_factors (r : Crypto) :
  (exists n : Z,
     value (analyzePotential r) = of_Z n /\
     2 * Z.of_nat (length (factors (analyzePotential r))) <= n
     <= 4 * Z.of_nat (length (factors (analyzePotential r)))) /\
  (factors (analyzePotential r) = [] <-> value (analyzePotential r) = 0%float).
Proof.
  destruct (analyzePotential_table r) as [Hv Hf].
  assert (Hb : 2 * Z.of_nat (length (factors (analyzePotential r))) <= points r
               <= 4 * Z.of_nat (length (factors (analyzePotential r)))).
  { rewrite Hf. unfold texts, points. rewrite length_fmap.
    apply points_per_factor, triggered_points. }
  split; [exists (points r); now split |].
  split.
  - intros Hnil.
    assert (Hlen : length (factors (analyzePotential r)) = 0%nat) by now rewrite Hnil.
    rewrite Hlen in Hb. rewrite Hv. replace (points r) with 0 by lia. reflexivity.
  - intros Hzero. pose proof (points_range r) as Hr.
    destruct (Z.eq_dec (points r) 0) as [H0 | Hne].
    + apply length_zero_iff_nil. lia.
    + pose proof (of_Z_positive (points r) ltac:(lia)) as Hpos.
      rewrite <- Hv, Hzero in Hpos. discriminate Hpos.
Qed.

Lemma singleton_sublist_In {A} (x : A) l : In x l -> [x] `sublist_of` l.
Proof. intros H. apply singleton_sublist_l. now apply list_elem_of_In. Qed.

Lemma texts_sublist r gs :
  tier_text <$> omap (contribution r) gs
  `sublist_of` concat (List.map (fun g => tier_text <$> group_tiers g) gs).
Proof.
  induction gs as [| g gs IH]; [constructor |].
  cbn [omap list_omap List.map concat].
  destruct (contribution r g) as [t |] eqn:Hc.
  - rewrite fmap_cons. change (tier_text t :: ?l) with (([tier_text t] ++ l)%list).
    apply sublist_app; [| exact IH].
    apply singleton_sublist_In. apply contribution_In in Hc as [Hin _].
    apply list_elem_of_In, list_elem_of_fmap. exists t.
    split; [reflexivity | now apply list_elem_of_In].
  - now apply sublist_inserts_l.
Qed.

(** The group and tier behind a listed factor. *)
Lemma factor_source r t :
  In t (factors (analyzePotential r)) ->
  exists g tier, In g table /\ In tier (group_tiers g) /\
    contribution r g = Some tier /\ tier_text tier = t.
Proof.
  intros H. apply factor_listed in H as (g & tier & Hg & Hc & Ht).
  exists g, tier. repeat split; try assumption.
  now apply contribution_In in Hc as [Hin _].
Qed.

Ltac trace_factor H :=
  let g := fresh "g" in let tier := fresh "tier" in
  let Hg := fresh "Hg" in let Ht := fresh "Ht" in let Hc := fresh "Hc" in
  let Hx := fresh "Hx" in
  apply factor_source in H as (g & tier & Hg & Ht & Hc & Hx);
  each_group Hg; cbn [group_tiers In] in Ht;
  repeat (destruct Ht as [<- | Ht]); try contradiction; try discriminate Hx.

(** X2. The factors are listed in the order of the source, none twice,
    and never both tiers of one group. *)
Theorem factors_exclusive (r : Crypto) :
  factors (analyzePotential r) `sublist_of`
    [ "Micro market cap with massive growth potential";
      "Very low market cap with high growth potential";
      "Exceptional trading volume relative to market cap";
      "Very high trading volume relative to market cap";
      "Strong positive price momentum (>15%)";
      "Good positive price momentum (>8%)";
      "Very large room for supply growth";
      "Significant room for supply growth";
      "Extremely high trading activity" ] /\
  NoDup (factors (analyzePotential r)) /\
  ~ (In "Micro market cap with massive growth potential" (factors (analyzePotential r)) /\
     In "Very low market cap with high growth potential" (factors (analyzePotential r))) /\
  ~ (In "Exceptional trading volume relative to market cap" (factors (analyzePotential r)) /\
     In "Very high trading volume relative to market cap" (factors (analyzePotential r))) /\
  ~ (In "Strong positive price momentum (>15%)" (factors (analyzePotential r)) /\
     In "Good positive price momentum (>8%)" (factors (analyzePotential r))) /\
  ~ (In "Very large room for supply growth" (factors (analyzePotential r)) /\
     In "Significant room for supply growth" (factors (analyzePotential r))).
Proof.
  assert (Hsub : factors (analyzePotential r) `sublist_of`
    [ "Micro market cap with massive growth potential";
      "Very low market cap with high growth potential";
      "Exceptional trading volume relative to market cap";
      "Very high trading volume relative to market cap";
      "Strong positive price momentum (>15%)";
      "Good positive price momentum (>8%)";
      "Very large room for supply growth";
      "Significant room for supply growth";
      "Extremely high trading activity" ]).
  { destruct (analyzePotential_table r) as [_ ->]. apply (texts_sublist r table). }
  split; [exact Hsub |]. split.
  - eapply sublist_NoDup; [| exact Hsub].
    apply (bool_decide_unpack _). vm_compute. reflexivity.
  - repeat split; intros [H1 H2]; trace_factor H1; trace_factor H2;
      rewrite Hc in Hc0; discriminate Hc0.
Qed.

End ScoreShape.

(** ** What the filter keeps *)

Section KeptRecords.
Import Binary64 Binary64Facts.

(** A rounded result carries the sign it was given, whatever it rounds to. *)
Lemma binary_round_aux_sign sx m e l :
  match binary_round_aux prec emax sx m e l with
  | S754_zero s | S754_infinity s | S754_finite s _ _ => s = sx
  | S754_nan => True
  end.
Proof.
  unfold binary_round_aux.
  destruct (shr_fexp prec emax m e l) as [mrs e1].
  destruct (shr_fexp prec emax _ e1 loc_Exact) as [mrs2 e2].
  destruct (shr_m mrs2); [reflexivity | | exact I].
  destruct (e2 <=? emax - prec); reflexivity.
Qed.

(** A quotient above a positive bound, over a positive divisor, has a
    positive dividend. *)
Lemma SFdiv_positive x y c :
  SFltb (S754_zero false) c = true -> SFltb (S754_zero false) y = true ->
  SFltb c (SF64div x y) = true -> SFltb (S754_zero false) x = true.
Proof.
  intros Hc Hy Hq.
  destruct c as [sc | [|] | | [|] mc ec]; try discriminate Hc;
    destruct y as [sy | [|] | | [|] my ey]; try discriminate Hy;
    destruct x as [sx | [|] | | [|] mx ex]; try reflexivity; try discriminate Hq;
    try (destruct sx; discriminate Hq);
    exfalso; revert Hq; unfold SF64div, SFdiv;
    destruct (SFdiv_core_binary prec emax (Z.pos mx) ex (Z.pos my) ey) as [[mz ez] lz];
    pose proof (binary_round_aux_sign (xorb true false) mz ez lz) as Hs;
    destruct (binary_round_aux prec emax (xorb true false) mz ez lz)
      as [s | s | | s m e]; cbn in Hs; subst; discriminate.
Qed.

Lemma divide_positive x y c :
  greaterThan c 0%float = true -> greaterThan y 0%float = true ->
  greaterThan (divide x y) c = true -> greaterThan x 0%float = true.
Proof.
  unfold greaterThan, divide. rewrite !FloatAxioms.ltb_spec, FloatAxioms.div_spec.
  change (Prim2SF 0%float) with (S754_zero false).
  apply SFdiv_positive.
Qed.

Lemma positive_number v :
  greaterThan (ToNumber v) 0%float = true ->
  v = Bool true \/ exists x, v = Num x /\ greaterThan x 0%float = true.
Proof.
  destruct v as [| | [|] | x]; cbn [ToNumber]; intros H;
    try discriminate H; [now left | right; eauto].
Qed.

(** X3. Every record the filter keeps has a volume above zero, as its
    market cap is: a volume that is missing, [null], [false], zero or
    negative never passes. *)
Theorem potentialGems_positive_volume (h : heap) data l :
  h !! data = Some l ->
  exists out h' gems,
    potentialGems data h = Normal (out, h') /\ h' !! out = Some gems /\
    Forall (fun r =>
      greaterThan (ToNumber (total_volume r)) 0%float = true /\
      greaterThan (ToNumber (market_cap r)) 0%float = true /\
      (total_volume r = Bool true \/
       exists x, total_volume r = Num x /\ greaterThan x 0%float = true)) gems.
Proof.
  intros Hdata. exists (fresh (dom h)), (<[fresh (dom h) := List.filter isPotentialGem l]> h),
    (List.filter isPotentialGem l).
  split; [now apply potentialGems_run |].
  split; [apply lookup_insert_eq |].
  apply Forall_forall. intros r Hr.
  apply list_elem_of_In, filter_In in Hr as [_ Hr].
  apply isPotentialGem_conditions in Hr as (Hcap & _ & Hratio).
  assert (Hv : greaterThan (ToNumber (total_volume r)) 0%float = true).
  { apply (divide_positive _ (ToNumber (market_cap r)) 0.1%float);
      [reflexivity | exact Hcap | exact Hratio]. }
  repeat split; try assumption. now apply positive_number.
Qed.

Lemma potentialGems_positive_volume_witness :
  exists out h' gems,
    potentialGems 1%positive sampleHeap = Normal (out, h') /\ h' !! out = Some gems /\
    Forall (fun r =>
      greaterThan (ToNumber (total_volume r)) 0%float = true /\
      greaterThan (ToNumber (market_cap r)) 0%float = true /\
      (total_volume r = Bool true \/
       exists x, total_volume r = Num x /\ greaterThan x 0%float = true)) gems.
Proof.
  apply (potentialGems_positive_volume sampleHeap 1%positive [quiet; scenarioB; scenarioA]).
  reflexivity.
Defined.

End KeptRecords.

(** ** Ranking composed with itself, with a filter and with reversal *)

Section RankAlgebra.
Import Binary64 Binary64Facts.

Lemma filter_perm {A} (p : A -> bool) (l l' : list A) :
  l ≡ₚ l' -> List.filter p l ≡ₚ List.filter p l'.
Proof.
  induction 1 as [| x l l' _ IH | x y l | l l' l'' _ IH1 _ IH2]; cbn.
  - reflexivity.
  - destruct (p x); [now constructor | exact IH].
  - destruct (p x), (p y); try reflexivity. apply perm_swap.
  - now transitivity (List.filter p l').
Qed.

Lemma filter_sorted {A} (R : A -> A -> Prop) (p : A -> bool) l :
  StronglySorted R l -> StronglySorted R (List.filter p l).
Proof.
  induction 1 as [| x l _ IH Hx]; cbn; [constructor |].
  destruct (p x); [| exact IH].
  constructor; [exact IH |].
  rewrite List.Forall_forall in *. intros y Hy. apply Hx.
  now apply filter_In in Hy as [Hy _].
Qed.

Lemma filter_swap {A} (p q : A -> bool) l :
  List.filter q (List.filter p l) = List.filter p (List.filter q l).
Proof.
  induction l as [| x l IH]; [reflexivity |]. cbn.
  destruct (p x) eqn:Hp, (q x) eqn:Hq; cbn; rewrite ?Hp, ?Hq, IH; reflexivity.
Qed.

Lemma sortable_perm f l l' : l' ≡ₚ l -> sortable f l -> sortable f l'.
Proof. unfold sortable. now intros ->. Qed.

Lemma sortable_filter f p l : sortable f l -> sortable f (List.filter p l).
Proof.
  unfold sortable. rewrite !Forall_forall. intros H r Hr. apply H.
  apply list_elem_of_In. apply list_elem_of_In, filter_In in Hr. tauto.
Qed.

Lemma sorted_snoc {A} (R : A -> A -> Prop) l x :
  StronglySorted R l -> List.Forall (fun a => R a x) l ->
  StronglySorted R (l ++ [x]).
Proof.
  induction 1 as [| y l _ IH Hy]; intros Hx; cbn.
  - repeat constructor.
  - inversion Hx as [| ? ? Hyx Hl]; subst.
    constructor; [now apply IH |].
    apply List.Forall_app. split; [exact Hy | now constructor].
Qed.

Lemma rev_sorted {A} (R : A -> A -> Prop) l :
  StronglySorted R l -> StronglySorted (fun a b => R b a) (rev l).
Proof.
  induction 1 as [| x l _ IH Hx]; cbn [rev]; [constructor |].
  apply sorted_snoc; [exact IH |].
  rewrite List.Forall_forall in *. intros a Ha. apply Hx. now apply in_rev.
Qed.

Lemma inOrder_flip x y : inOrder Asc x y <-> inOrder Desc y x.
Proof. reflexivity. Qed.

(** X4. Ranking what [sortData] returned changes nothing: the array it
    returns for its own output has the same contents. *)
Theorem sortData_idempotent f d (h : heap) data l :
  h !! data = Some l -> sortable f l ->
  exists once h1 twice h2 ranked,
    sortData f d data h = Normal (once, h1) /\
    sortData f d once h1 = Normal (twice, h2) /\
    h2 !! once = Some ranked /\ h2 !! twice = Some ranked /\ once <> twice.
Proof.
  intros Hdata Hl.
  set (h1 := <[fresh (dom h) := rank f d l]> h).
  assert (Hone : h1 !! fresh (dom h) = Some (rank f d l)) by apply lookup_insert_eq.
  exists (fresh (dom h)), h1, (fresh (dom h1)),
    (<[fresh (dom h1) := rank f d (rank f d l)]> h1), (rank f d l).
  assert (Hne : fresh (dom h) <> fresh (dom h1)).
  { intros Heq. pose proof (fresh_heap h1) as Hf. rewrite <- Heq, Hone in Hf.
    discriminate Hf. }
  assert (Hsame : rank f d l = rank f d (rank f d l)).
  { apply rank_unique.
    - eapply sortable_perm; [apply rank_perm | exact Hl].
    - reflexivity.
    - now apply rank_sorted.
    - reflexivity. }
  split; [now apply sortData_run |].
  split; [now apply sortData_run |].
  split; [rewrite lookup_insert_ne by (intros Heq; now apply Hne); exact Hone |].
  split; [rewrite <- Hsame; apply lookup_insert_eq | exact Hne].
Qed.

Lemma sortData_idempotent_witness :
  exists once h1 twice h2 ranked,
    sortData (Property MarketCap) Asc 1%positive sampleHeap = Normal (once, h1) /\
    sortData (Property MarketCap) Asc once h1 = Normal (twice, h2) /\
    h2 !! once = Some ranked /\ h2 !! twice = Some ranked /\ once <> twice.
Proof.
  apply (sortData_idempotent (Property MarketCap) Asc sampleHeap 1%positive
           [quiet; scenarioB; scenarioA]).
  - reflexivity.
  - repeat constructor.
Defined.

(** X5. Filtering and ranking commute: filtering the ranked array and
    ranking the filtered array give arrays of the same contents. *)
Theorem rank_filter_commute f d (p : Crypto -> bool) (h : heap) data l :
  h !! data = Some l -> sortable f l ->
  exists a ha b hb shown,
    (kept ← Array_filter p data; sortData f d kept) h = Normal (a, ha) /\
    (ranked ← sortData f d data; Array_filter p ranked) h = Normal (b, hb) /\
    ha !! a = Some shown /\ hb !! b = Some shown.
Proof.
  intros Hdata Hl.
  set (h1 := <[fresh (dom h) := List.filter p l]> h).
  set (h2 := <[fresh (dom h) := rank f d l]> h).
  exists (fresh (dom h1)), (<[fresh (dom h1) := rank f d (List.filter p l)]> h1),
    (fresh (dom h2)), (<[fresh (dom h2) := List.filter p (rank f d l)]> h2),
    (rank f d (List.filter p l)).
  split.
  { unfold mbind at 1, js_bind at 1.
    unfold Array_filter, mbind at 1, js_bind at 1, read, alloc. rewrite Hdata.
    fold h1. apply sortData_run. apply lookup_insert_eq. }
  split.
  { unfold mbind at 1, js_bind at 1. rewrite (sortData_run f d h data l Hdata).
    fold h2. unfold Array_filter, mbind, js_bind, read, alloc.
    subst h2. now rewrite lookup_insert_eq. }
  split; [apply lookup_insert_eq |].
  rewrite lookup_insert_eq. f_equal. apply rank_unique.
  - now apply sortable_filter.
  - apply filter_perm, rank_perm.
  - apply filter_sorted. now apply rank_sorted.
  - intros v. rewrite filter_swap, rank_stable by exact Hl. apply filter_swap.
Qed.

Lemma rank_filter_commute_witness :
  exists a ha b hb shown,
    (kept ← Array_filter isPotentialGem 1%positive; sortData PotentialScore Desc kept)
      sampleHeap = Normal (a, ha) /\
    (ranked ← sortData PotentialScore Desc 1%positive; Array_filter isPotentialGem ranked)
      sampleHeap = Normal (b, hb) /\
    ha !! a = Some shown /\ hb !! b = Some shown.
Proof.
  apply (rank_filter_commute PotentialScore Desc isPotentialGem sampleHeap 1%positive
           [quiet; scenarioB; scenarioA]).
  - reflexivity.
  - apply sortable_score.
Defined.

(** X6. The two directions mirror each other: ranking ascending is
    ranking the reversed input descending and reversing the result, so
    that ties keep their input order in both. *)
Theorem rank_directions_mirror f (l : list Crypto) :
  sortable f l ->
  rank f Asc l = rev (rank f Desc (rev l)) /\
  rank f Desc l = rev (rank f Asc (rev l)).
Proof.
  intros Hl.
  assert (Hrev : sortable f (rev l)).
  { eapply sortable_perm; [| exact Hl]. symmetry. apply Permutation_rev. }
  split; symmetry; apply rank_unique; try exact Hl.
  - rewrite <- Permutation_rev, rank_perm. symmetry. apply Permutation_rev.
  - apply (rev_sorted (fun a b => inOrder Desc (sortKey f a) (sortKey f b))).
    now apply rank_sorted.
  - intros v. rewrite List.filter_rev, rank_stable by exact Hrev.
    rewrite List.filter_rev. apply rev_involutive.
  - rewrite <- Permutation_rev, rank_perm. symmetry. apply Permutation_rev.
  - apply (rev_sorted (fun a b => inOrder Asc (sortKey f a) (sortKey f b))).
    now apply rank_sorted.
  - intros v. rewrite List.filter_rev, rank_stable by exact Hrev.
    rewrite List.filter_rev. apply rev_involutive.
Qed.

Lemma rank_directions_mirror_witness :
  rank (Property TotalVolume) Asc [quiet; scenarioB; scenarioA]
  = rev (rank (Property TotalVolume) Desc (rev [quiet; scenarioB; scenarioA])) /\
  rank (Property TotalVolume) Desc [quiet; scenarioB; scenarioA]
  = rev (rank (Property TotalVolume) Asc (rev [quiet; scenarioB; scenarioA])).
Proof.
  apply (rank_directions_mirror (Property TotalVolume) [quiet; scenarioB; scenarioA]).
  repeat constructor.
Defined.

End RankAlgebra.

(** ** The ten tokens shown *)

Section TopTen.
Import Binary64 Binary64Facts.

Lemma Array_slice_run first last (h : heap) a l :
  h !! a = Some l ->
  Array_slice first last a h
  = Normal (fresh (dom h), <[fresh (dom h) := take (last - first) (drop first l)]> h).
Proof.
  intros Ha. unfold Array_slice, mbind, js_bind, read, alloc. now rewrite Ha.
Qed.

Lemma sorted_app_inv {A} (R : A -> A -> Prop) l1 l2 :
  StronglySorted R (l1 ++ l2) ->
  StronglySorted R l1 /\ StronglySorted R l2 /\
  List.Forall (fun a => List.Forall (R a) l2) l1.
Proof.
  induction l1 as [| x l1 IH]; cbn; intros H.
  - repeat split; [constructor | exact H | constructor].
  - inversion H as [| ? ? Hs Hx]; subst.
    destruct (IH Hs) as (H1 & H2 & H12).
    apply List.Forall_app in Hx as [Hx1 Hx2].
    repeat split; [now constructor | exact H2 | now constructor].
Qed.

(** The array [sortedData.slice(0, 10)] holds, of an array and its ranked
    copy. *)
Lemma top10_run f d (h : heap) data l :
  h !! data = Some l ->
  (sortedData ← sortData f d data; top10Tokens ← Array_slice 0 10 sortedData;
   read top10Tokens) h
  = Normal (take 10 (rank f d l),
            <[fresh (dom (<[fresh (dom h) := rank f d l]> h)) := take 10 (rank f d l)]>
              (<[fresh (dom h) := rank f d l]> h)).
Proof.
  intros Hdata. unfold mbind at 1, js_bind at 1.
  rewrite (sortData_run f d h data l Hdata).
  unfold mbind at 1, js_bind at 1.
  rewrite (Array_slice_run 0 10 _ _ (rank f d l)) by apply lookup_insert_eq.
  unfold read. now rewrite lookup_insert_eq.
Qed.

(** X7. The ten tokens shown are the head of the ranking: as many as
    there are, up to ten, in ranked order, and each stands in order
    before every record left out; the array ranked is left as it was. *)
Theorem top10_leads f d (h : heap) data l :
  h !! data = Some l -> sortable f l ->
  exists shown rest h',
    (sortedData ← sortData f d data; top10Tokens ← Array_slice 0 10 sortedData;
     read top10Tokens) h = Normal (shown, h') /\
    length shown = Nat.min 10 (length l) /\
    (shown ++ rest)%list = rank f d l /\
    StronglySorted (fun a b => inOrder d (sortKey f a) (sortKey f b)) shown /\
    List.Forall (fun a =>
      List.Forall (fun b => inOrder d (sortKey f a) (sortKey f b)) rest) shown /\
    h' !! data = Some l.
Proof.
  intros Hdata Hl.
  exists (take 10 (rank f d l)), (drop 10 (rank f d l)).
  eexists. split; [now apply top10_run |].
  pose proof (rank_sorted f d l Hl) as Hs.
  rewrite <- (take_drop 10 (rank f d l)) in Hs.
  apply sorted_app_inv in Hs as (Hs1 & _ & Hs12).
  split.
  { rewrite length_take. rewrite (Permutation_length (rank_perm f d l)). lia. }
  split; [apply take_drop |].
  split; [exact Hs1 |]. split; [exact Hs12 |].
  assert (Hne : forall (h0 : heap) v, h0 !! data = Some l ->
            <[fresh (dom h0) := v]> h0 !! data = Some l).
  { intros h0 v H0. rewrite lookup_insert_ne; [exact H0 |].
    intros Heq. pose proof (fresh_heap h0) as Hf. rewrite Heq, H0 in Hf.
    discriminate Hf. }
  now apply Hne, Hne.
Qed.

Lemma top10_leads_witness :
  exists shown rest h',
    (sortedData ← sortData PotentialScore Desc 1%positive;
     top10Tokens ← Array_slice 0 10 sortedData;
     read top10Tokens) sampleHeap = Normal (shown, h') /\
    length shown = Nat.min 10 (length [quiet; scenarioB; scenarioA]) /\
    (shown ++ rest)%list = rank PotentialScore Desc [quiet; scenarioB; scenarioA] /\
    StronglySorted (fun a b => inOrder Desc (sortKey PotentialScore a)
                                 (sortKey PotentialScore b)) shown /\
    List.Forall (fun a =>
      List.Forall (fun b => inOrder Desc (sortKey PotentialScore a)
                              (sortKey PotentialScore b)) rest) shown /\
    h' !! 1%positive = Some [quiet; scenarioB; scenarioA].
Proof.
  apply (top10_leads PotentialScore Desc sampleHeap 1%positive
           [quiet; scenarioB; scenarioA]).
  - reflexivity.
  - apply sortable_score.
Defined.

End TopTen.

(** ** The component: fetch, state and views *)

Section Component.
Import Binary64 Binary64Facts.

(** The narrator completes wherever the 24h change is a number or is not
    above zero. *)
Lemma generateAnalysis_completion r :
  drawable r -> exists sentence, generateAnalysis r = Normal sentence.
Proof.
  unfold drawable, generateAnalysis. cbv zeta.
  destruct (price_change_percentage_24h r) as [| | [|] | x]; cbn [ToNumber]; intros Hr;
    [ | | destruct Hr as [[x Hx] | Hx];
          [discriminate Hx | vm_compute in Hx; discriminate Hx] | | ];
    try change (greaterThan NaN 0%float) with false;
    try change (greaterThan 0%float 0%float) with false;
    cbn [call_toFixed];
    try destruct (greaterThan x 0%float);
    destruct (ToBoolean (total_supply r)); cbn [ToBoolean call_toFixed];
    try destruct (is_zero _ || isNaN _); cbn [negb]; eexists; reflexivity.
Qed.

Lemma card_completion up r :
  drawable r -> exists c, card up r = Normal c.
Proof.
  intros Hr. destruct (generateAnalysis_completion r Hr) as [s Hs].
  unfold card. rewrite Hs. eexists. reflexivity.
Qed.

Lemma cardsOf_drawable up tokens :
  List.Forall drawable tokens ->
  exists cs, cardsOf up tokens = Normal cs /\
    Forall2 (fun r c => card up r = Normal c) tokens cs.
Proof.
  induction 1 as [| r tokens Hr _ (cs & Hcs & Hall)]; cbn [cardsOf].
  - exists []. split; [reflexivity | constructor].
  - destruct (card_completion up r Hr) as (c & Hc).
    rewrite Hc, Hcs. exists (c :: cs). split; [reflexivity | now constructor].
Qed.

Lemma card_fields up r c :
  card up r = Normal c ->
  card_symbol c = chart_name (chartEntry up r) /\
  card_score c = chart_score (chartEntry up r) /\
  card_factors c = String.concat " â€¢ " (factors (analyzePotential r)).
Proof.
  unfold card. destruct (generateAnalysis r) as [s | msg]; [| discriminate].
  intros [= <-]. repeat split.
Qed.

Lemma alloc_keeps (h : heap) v a (l : list Crypto) :
  h !! a = Some l -> <[fresh (dom h) := v]> h !! a = Some l.
Proof.
  intros Ha. rewrite lookup_insert_ne; [exact Ha |].
  intros Heq. pose proof (fresh_heap h) as Hf. rewrite Heq, Ha in Hf.
  discriminate Hf.
Qed.

(** Past the two early returns, the component shows the first ten of the
    ranked data, or throws where a card does. *)
Lemma render_dashboard up st (h : heap) l :
  loading st = false -> shownError (error st) = None ->
  h !! cryptoData st = Some l ->
  exists h', (forall a v, h !! a = Some v -> h' !! a = Some v) /\
    render up st h =
    match cardsOf up (take 10 (rank (stateSortField st) (stateSortDirection st) l)) with
    | Normal cards =>
        Normal (Dashboard
                  (List.map (chartEntry up)
                     (take 10 (rank (stateSortField st) (stateSortDirection st) l)))
                  cards, h')
    | TypeError msg => TypeError msg
    end.
Proof.
  intros Hload Herr Hdata. eexists. split; cycle 1.
  - unfold render. rewrite Hload, Herr.
    unfold mbind at 1, js_bind at 1. rewrite (sortData_run _ _ h _ l Hdata).
    unfold mbind at 1, js_bind at 1.
    rewrite (Array_slice_run 0 10 _ _ (rank (stateSortField st) (stateSortDirection st) l))
      by apply lookup_insert_eq.
    unfold mbind at 1, js_bind at 1, read. rewrite lookup_insert_eq.
    unfold mbind, js_bind, completed, mret, js_ret.
    change (10 - 0)%nat with 10%nat. rewrite drop_0.
    destruct (cardsOf up _); reflexivity.
  - intros a v Ha. now apply alloc_keeps, alloc_keeps.
Qed.

Lemma sorted_map {A B} (f : A -> B) (R : B -> B -> Prop) l :
  StronglySorted (fun a b => R (f a) (f b)) l -> StronglySorted R (List.map f l).
Proof.
  induction 1 as [| x l _ IH Hx]; cbn; [constructor |].
  constructor; [exact IH |].
  rewrite List.Forall_forall in *. intros y Hy.
  apply in_map_iff in Hy as (a & <- & Ha). now apply Hx.
Qed.

(** Mount, step by step: the first render shows the loading view and
    allocates nothing; the fetch and the second render follow. *)
Lemma mount_steps up (result : FetchResult) (h : heap) :
  mount up result h
  = match fetchCryptoData result
            {| cryptoData := fresh (dom h); loading := true; error := None;
               stateSortField := PotentialScore; stateSortDirection := Desc |}
            (<[fresh (dom h) := []]> h) with
    | Normal (st', h1) =>
        match render up st' h1 with
        | Normal (second, h') => Normal ((LoadingView, second), h')
        | TypeError msg => TypeError msg
        end
    | TypeError msg => TypeError msg
    end.
Proof.
  unfold mount, initialState.
  unfold mbind at 1, js_bind at 1. unfold mbind at 1, js_bind at 1, alloc.
  unfold mret at 1, js_ret at 1.
  unfold mbind at 1, js_bind at 1.
  set (st := {| cryptoData := fresh (dom h); loading := true; error := None;
                stateSortField := PotentialScore; stateSortDirection := Desc |}).
  set (h0 := <[fresh (dom h) := []]> h).
  change (render up st h0) with (Normal (LoadingView, h0)).
  unfold mbind at 1, js_bind at 1.
  destruct (fetchCryptoData result st h0) as [[st' h1] | msg]; [| reflexivity].
  unfold mbind, js_bind, mret, js_ret.
  destruct (render up st' h1) as [[second h'] | msg]; reflexivity.
Qed.

(** The second view after a failed fetch. *)
Lemma mount_failed up (result : FetchResult) (h : heap) st message :
  fetchCryptoData result
    {| cryptoData := fresh (dom h); loading := true; error := None;
       stateSortField := PotentialScore; stateSortDirection := Desc |}
    (<[fresh (dom h) := []]> h)
  = Normal (st, <[fresh (dom h) := []]> h) ->
  cryptoData st = fresh (dom h) -> loading st = false -> error st = Some message ->
  exists h', mount up result h
             = Normal ((LoadingView,
                        match message with
                        | EmptyString => Dashboard [] []
                        | _ => ErrorView message
                        end), h').
Proof.
  intros Hfetch Hdata Hload Herr. rewrite mount_steps, Hfetch.
  destruct message as [| c message].
  - destruct (render_dashboard up st (<[fresh (dom h) := []]> h) [] Hload)
      as (h' & _ & ->).
    + now rewrite Herr.
    + rewrite Hdata. apply lookup_insert_eq.
    + exists h'. reflexivity.
  - eexists. unfold render. rewrite Hload, Herr. reflexivity.
Qed.

(** A successful fetch: the response's records go into one new array, the
    records that pass the filter into another, which becomes the data. *)
Lemma fetchCryptoData_success (records : list Crypto) (st : AppState) (h : heap) :
  exists st' h',
    fetchCryptoData (Responded true (BodyJson (JsonArray records))) st h
    = Normal (st', h') /\
    loading st' = false /\
    stateSortField st' = stateSortField st /\
    stateSortDirection st' = stateSortDirection st /\
    (forall a v, h !! a = Some v -> h' !! a = Some v) /\
    error st' = error st /\ h !! cryptoData st' = None /\
    h' !! cryptoData st' = Some (List.filter isPotentialGem records).
Proof.
  set (h1 := <[fresh (dom h) := records]> h).
  exists (setLoading false (setCryptoData (fresh (dom h1)) st)),
    (<[fresh (dom h1) := List.filter isPotentialGem records]> h1).
  split.
  { unfold fetchCryptoData, fetchAndFilter. cbn [negb].
    unfold mbind, js_bind, alloc. fold h1.
    rewrite (potentialGems_run h1 _ records) by apply lookup_insert_eq.
    reflexivity. }
  repeat split.
  - intros a v Ha. now apply alloc_keeps, alloc_keeps.
  - cbn. destruct (h !! fresh (dom h1)) as [v |] eqn:Hv; [| reflexivity].
    pose proof (alloc_keeps h records _ v Hv) as Hk.
    change (h1 !! fresh (dom h1) = Some v) in Hk.
    rewrite (fresh_heap h1) in Hk. discriminate Hk.
  - cbn. apply lookup_insert_eq.
Qed.

(** X8. However the fetch ends, [loading] is false afterwards and the
    sort settings are as before; a response that is not ok gives the
    message "Failed to fetch data" whatever its body; any failure sets the
    error and leaves the data and every array alone; a success leaves the
    error alone and puts the filtered records in a new array. *)
Theorem fetchCryptoData_outcome (result : FetchResult) (st : AppState) (h : heap) :
  exists st' h',
    fetchCryptoData result st h = Normal (st', h') /\
    loading st' = false /\
    stateSortField st' = stateSortField st /\
    stateSortDirection st' = stateSortDirection st /\
    (forall a v, h !! a = Some v -> h' !! a = Some v) /\
    match result with
    | Responded true (BodyJson (JsonArray records)) =>
        error st' = error st /\ h !! cryptoData st' = None /\
        h' !! cryptoData st' = Some (List.filter isPotentialGem records)
    | Responded false _ =>
        error st' = Some "Failed to fetch data" /\
        cryptoData st' = cryptoData st /\ h' = h
    | Rejected message
    | Responded true (BodyUnreadable message)
    | Responded true (BodyJson (JsonOther message)) =>
        error st' = Some message /\ cryptoData st' = cryptoData st /\ h' = h
    end.
Proof.
  destruct result as [message | [|] [message | [records | message]]];
    try (eexists; eexists; repeat split; [reflexivity || (intros a v Ha; exact Ha) ..]).
  apply fetchCryptoData_success.
Qed.

(** X9. On mount the loading view comes first. A failed fetch then shows
    the error view with the message caught, except that an empty message
    counts as no error: the dashboard is shown, empty. *)
Theorem mount_failure up (result : FetchResult) (h : heap) :
  match result with
  | Responded true (BodyJson (JsonArray _)) => True
  | Responded false _ =>
      exists h', mount up result h
                 = Normal ((LoadingView, ErrorView "Failed to fetch data"), h')
  | Rejected message
  | Responded true (BodyUnreadable message)
  | Responded true (BodyJson (JsonOther message)) =>
      exists h', mount up result h
                 = Normal ((LoadingView,
                            match message with
                            | EmptyString => Dashboard [] []
                            | _ => ErrorView message
                            end), h')
  end.
Proof.
  destruct result as [message | [|] [message | [records | message]]];
    try exact I;
    try (eapply (mount_failed up _ h _ "Failed to fetch data"); reflexivity);
    eapply mount_failed; reflexivity.
Qed.

(** X10. When the fetch succeeds and each of the ten highest-scoring
    records that pass the filter (or of all that pass, if fewer) has a 24h
    change that is a number or is not above zero, the second view is the
    dashboard of those records: bars and cards pair up, bar by card, with
    the same symbol and score; the bars' scores never increase from left
    to right; every bar is a record of the response that passes the
    filter; no array that was there is changed. *)
Theorem mount_success up (records : list Crypto) (h : heap) :
  List.Forall drawable
    (take 10 (rank PotentialScore Desc (List.filter isPotentialGem records))) ->
  exists chartData cards h',
    mount up (Responded true (BodyJson (JsonArray records))) h
    = Normal ((LoadingView, Dashboard chartData cards), h') /\
    length chartData = Nat.min 10 (length (List.filter isPotentialGem records)) /\
    Forall2 (fun bar c =>
               chart_name bar = card_symbol c /\ chart_score bar = card_score c)
      chartData cards /\
    StronglySorted (fun a b => lessThan (chart_score a) (chart_score b) = false)
      chartData /\
    List.Forall (fun bar => exists r, In r records /\ isPotentialGem r = true /\
                              bar = chartEntry up r) chartData /\
    (forall a v, h !! a = Some v -> h' !! a = Some v).
Proof.
  set (gems := List.filter isPotentialGem records).
  set (tokens := take 10 (rank PotentialScore Desc gems)).
  intros Hall.
  (* the heap and the state the second render starts from *)
  set (h0 := <[fresh (dom h) := []]> h).
  set (st := {| cryptoData := fresh (dom h); loading := true; error := None;
                stateSortField := PotentialScore; stateSortDirection := Desc |}).
  destruct (fetchCryptoData_success records st h0)
    as (st' & h1 & Hfetch & Hload & Hf & Hd & Hkeep1 & Herr & _ & Hdata).
  destruct (render_dashboard up st' h1 gems Hload) as (h2 & Hkeep2 & Hrender);
    [now rewrite Herr | exact Hdata |].
  rewrite Hf, Hd in Hrender. cbn [stateSortField stateSortDirection st] in Hrender.
  fold tokens in Hrender.
  assert (Hmount : mount up (Responded true (BodyJson (JsonArray records))) h
                   = match render up st' h1 with
                     | Normal (second, h') => Normal ((LoadingView, second), h')
                     | TypeError msg => TypeError msg
                     end).
  { rewrite mount_steps. fold st. fold h0. now rewrite Hfetch. }
  rewrite Hmount, Hrender.
  destruct (cardsOf_drawable up tokens Hall) as (cards & -> & Hcards).
  exists (List.map (chartEntry up) tokens), cards, h2.
  split; [reflexivity |].
  split.
  { rewrite length_map. subst tokens. rewrite length_take.
    rewrite (Permutation_length (rank_perm PotentialScore Desc gems)). lia. }
  split.
  { clear -Hcards. induction Hcards as [| r c tokens cards Hc _ IH]; cbn; constructor.
    - apply card_fields in Hc as (Hs & Hv & _). now rewrite Hs, Hv.
    - exact IH. }
  split.
  { apply sorted_map. cbn [chart_score chartEntry].
    pose proof (rank_sorted PotentialScore Desc gems (sortable_score gems)) as Hs.
    rewrite <- (take_drop 10 (rank PotentialScore Desc gems)) in Hs.
    now apply sorted_app_inv in Hs as (Hs1 & _ & _). }
  split.
  { apply List.Forall_forall. intros bar Hbar.
    apply in_map_iff in Hbar as (r & <- & Hr).
    assert (Hin : In r gems).
    { apply list_elem_of_In. rewrite <- (rank_perm PotentialScore Desc gems).
      apply list_elem_of_In.
      rewrite <- (take_drop 10 (rank PotentialScore Desc gems)).
      apply in_or_app. now left. }
    apply filter_In in Hin as [Hin Hp]. exists r. auto. }
  intros a v Ha. apply Hkeep2, Hkeep1. now apply alloc_keeps.
Qed.

Lemma mount_success_witness :
  exists chartData cards h',
    mount upperLatin (Responded true (BodyJson (JsonArray [quiet; scenarioB; scenarioA])))
      sampleHeap
    = Normal ((LoadingView, Dashboard chartData cards), h') /\
    length chartData
    = Nat.min 10 (length (List.filter isPotentialGem [quiet; scenarioB; scenarioA])) /\
    Forall2 (fun bar c =>
               chart_name bar = card_symbol c /\ chart_score bar = card_score c)
      chartData cards /\
    StronglySorted (fun a b => lessThan (chart_score a) (chart_score b) = false)
      chartData /\
    List.Forall (fun bar => exists r, In r [quiet; scenarioB; scenarioA] /\
                              isPotentialGem r = true /\
                              bar = chartEntry upperLatin r) chartData /\
    (forall a v, sampleHeap !! a = Some v -> h' !! a = Some v).
Proof.
  apply (mount_success upperLatin [quiet; scenarioB; scenarioA] sampleHeap).
  vm_compute.
  repeat (constructor; [left; eexists; reflexivity |]). constructor.
Defined.

Lemma concat_nonempty sep x (l : list string) :
  x <> "" -> String.concat sep (x :: l) <> "".
Proof.
  intros Hx. destruct x as [| c x]; [congruence |].
  cbn [String.concat]. destruct l; discriminate.
Qed.

(** X11. A card lists no key factors exactly when its score is 0; its
    symbol and score are those of its bar in the chart. *)
Theorem card_factors_score up (r : Crypto) (c : Card) :
  card up r = Normal c ->
  (card_factors c = "" <-> card_score c = 0%float) /\
  card_symbol c = chart_name (chartEntry up r) /\
  card_score c = chart_score (chartEntry up r).
Proof.
  intros Hc. apply card_fields in Hc as (Hs & Hv & Hf).
  split; [| now split].
  rewrite Hv, Hf. cbn [chart_score chartEntry].
  destruct (analyzePotential_table r) as [Hval Htexts].
  destruct (factors (analyzePotential r)) as [| t ts] eqn:Hfs.
  - split; [intros _ | reflexivity].
    assert (Hp : RuleTable.points r = 0).
    { pose proof (points_per_factor (RuleTable.triggered r) (triggered_points r)) as Hb.
      fold (RuleTable.points r) in Hb.
      assert (Hlen : length (RuleTable.triggered r) = 0%nat).
      { unfold RuleTable.texts in Htexts. rewrite <- (length_fmap RuleTable.tier_text).
        now rewrite <- Htexts. }
      rewrite Hlen in Hb. lia. }
    rewrite Hval, Hp. reflexivity.
  - split.
    + intros Hempty. exfalso. revert Hempty. apply concat_nonempty.
      assert (Hin : In t (factors (analyzePotential r))) by (rewrite Hfs; now left).
      apply factor_source in Hin as (g & tier & Hg & Ht & _ & <-).
      each_group Hg; cbn [RuleTable.group_tiers In] in Ht;
        repeat (destruct Ht as [<- | Ht]); try contradiction; discriminate.
    + intros Hzero. exfalso.
      pose proof (points_per_factor (RuleTable.triggered r) (triggered_points r)) as Hb.
      fold (RuleTable.points r) in Hb.
      assert (Hlen : (0 < length (RuleTable.triggered r))%nat).
      { unfold RuleTable.texts in Htexts. rewrite <- (length_fmap RuleTable.tier_text).
        rewrite <- Htexts. cbn. lia. }
      pose proof (points_range r) as Hr.
      pose proof (of_Z_positive (RuleTable.points r) ltac:(lia)) as Hpos.
      rewrite <- Hval, Hzero in Hpos. discriminate Hpos.
Qed.

Lemma card_factors_score_witness :
  exists c, card upperLatin scenarioA = Normal c /\
    (card_factors c = "" <-> card_score c = 0%float) /\
    card_symbol c = chart_name (chartEntry upperLatin scenarioA) /\
    card_score c = chart_score (chartEntry upperLatin scenarioA).
Proof.
  eexists. split; [vm_compute; reflexivity |].
  apply (card_factors_score upperLatin scenarioA). vm_compute. reflexivity.
Defined.

End Component.
